(** * Zonos backbone (zonos/backbone/_mlx.py): rotary embedding, KV cache,
      attention block and backbone orchestration.

    The source runs on the array library mlx ([mlx.core], [mlx.nn]).  An
    array is modelled by a small row-major n-dimensional array: a dtype tag,
    a shape and the flat list of elements.  The calls that the library
    provides (arange, outer, stack, reshape, flatten, astype, split, basic
    slicing and slice assignment, broadcasting arithmetic, the call of a
    linear layer) are modelled with the library's semantics.  The source was
    ported from another array library and also uses names that mlx does not
    have ([mx.polar], the attribute [device] of an array): evaluating such a
    name raises the attribute error, and so does its model.  Scalars are an
    abstract interface ([Scalar]); a dtype conversion is the interface's
    [cast].  Offsets and lengths are non-negative counters and are kept in
    [nat]. *)

From Stdlib Require Import Reals Lra Lia.
From stdpp Require Import base list gmap.

(** ** Exceptions and the result monad *)

Inductive exn := AssertionError | IndexError | KeyError | ValueError | AttributeError.

Inductive result (A : Type) := Ok (a : A) | Raise (e : exn).
Arguments Ok {A} a.
Arguments Raise {A} e.

#[export] Instance result_ret : MRet result := fun A a => Ok a.
#[export] Instance result_bind : MBind result :=
  fun A B f m => match m with Ok a => f a | Raise e => Raise e end.
#[export] Instance result_fmap : FMap result :=
  fun A B f m => match m with Ok a => Ok (f a) | Raise e => Raise e end.

Definition is_ok {A} (r : result A) : bool :=
  match r with Ok _ => true | Raise _ => false end.

Definition of_option {A} (e : exn) (o : option A) : result A :=
  match o with Some a => Ok a | None => Raise e end.

(** ** Row-major arrays *)

Inductive Dtype := bfloat16 | float16 | float32 | int32 | complex64.

#[export] Instance Dtype_eq_dec : EqDecision Dtype.
Proof. solve_decision. Defined.

Record ndarray (A : Type) := NDArray { dtype : Dtype; shape : list nat; data : list A }.
Arguments NDArray {A} dtype shape data.
Arguments dtype {A} n.
Arguments shape {A} n.
Arguments data {A} n.

Definition numel (sh : list nat) : nat := foldr Nat.mul 1 sh.

Definition wf {A} (a : ndarray A) : Prop := length (data a) = numel (shape a).

Fixpoint ravel (sh idx : list nat) : nat :=
  match sh, idx with
  | _ :: sh', i :: idx' => i * numel sh' + ravel sh' idx'
  | _, _ => 0
  end.

Fixpoint in_bounds (sh idx : list nat) : bool :=
  match sh, idx with
  | [], [] => true
  | n :: sh', i :: idx' => (i <? n) && in_bounds sh' idx'
  | _, _ => false
  end.

Fixpoint indices (sh : list nat) : list (list nat) :=
  match sh with
  | [] => [[]]
  | n :: sh' => concat ((fun i => cons i <$> indices sh') <$> seq 0 n)
  end.

Definition get {A} `{Inhabited A} (a : ndarray A) (idx : list nat) : A :=
  data a !!! ravel (shape a) idx.

Definition tabulate {A} (dt : Dtype) (sh : list nat) (f : list nat -> A) : ndarray A :=
  NDArray dt sh (f <$> indices sh).

Definition shape_at {A} (a : ndarray A) (i : nat) : result nat :=
  of_option IndexError (shape a !! i).

(** ** Scalars

    The element type of the floating-point arrays.  [cast dt] is the
    conversion to the dtype [dt]; the arithmetic operations are the array
    library's. *)

Class Scalar (F : Type) := {
  fzero : F;
  fone : F;
  fadd : F -> F -> F;
  fsub : F -> F -> F;
  fmul : F -> F -> F;
  cast : Dtype -> F -> F
}.

Class Transcendental (F : Type) `{Scalar F} := {
  fdiv : F -> F -> F;
  fpow : F -> F -> F;
  fcos : F -> F;
  fsin : F -> F;
  of_nat : nat -> F
}.

#[export] Instance scalar_inhabited {F} `{Scalar F} : Inhabited F | 0 := populate fzero.

#[export] Instance ndarray_inhabited {A} : Inhabited (ndarray A) := populate (NDArray float32 [0] []).

Definition promote (a b : Dtype) : Dtype :=
  if decide (a = b) then a else
  match a, b with
  | complex64, _ | _, complex64 => complex64
  | int32, d | d, int32 => d
  | _, _ => float32
  end.

(** ** Array operations *)

Definition astype {F} `{Scalar F} (dt : Dtype) (a : ndarray F) : ndarray F :=
  NDArray dt (shape a) (cast dt <$> data a).

Definition astype_of_nat {F} `{Transcendental F} (dt : Dtype) (a : ndarray nat) : ndarray F :=
  NDArray dt (shape a) ((fun n => cast dt (of_nat n)) <$> data a).

Definition map_array {A B} (dt : Dtype) (f : A -> B) (a : ndarray A) : ndarray B :=
  NDArray dt (shape a) (f <$> data a).

Fixpoint count_holes (dims : list (option nat)) : nat :=
  match dims with
  | [] => 0
  | None :: r => S (count_holes r)
  | Some _ :: r => count_holes r
  end.

Fixpoint known_numel (dims : list (option nat)) : nat :=
  match dims with
  | [] => 1
  | None :: r => known_numel r
  | Some n :: r => n * known_numel r
  end.

(** [reshape a dims]: a [None] entry is the source's [-1]. *)
Definition reshape {A} (a : ndarray A) (dims : list (option nat)) : result (ndarray A) :=
  let total := numel (shape a) in
  let known := known_numel dims in
  match count_holes dims with
  | 0 => if decide (known = total)
         then Ok (NDArray (dtype a) (default 0 <$> dims) (data a))
         else Raise ValueError
  | 1 => if decide (known <> 0 /\ total mod known = 0)
         then Ok (NDArray (dtype a) (default (total / known) <$> dims) (data a))
         else Raise ValueError
  | _ => Raise ValueError
  end.

Definition flatten_from {A} (k : nat) (a : ndarray A) : result (ndarray A) :=
  if decide (k < length (shape a))
  then Ok (NDArray (dtype a) (take k (shape a) ++ [numel (drop k (shape a))]) (data a))
  else Raise IndexError.

(** *** Broadcasting *)

Fixpoint bshape_rev (r1 r2 : list nat) : option (list nat) :=
  match r1, r2 with
  | [], r | r, [] => Some r
  | a :: r1', b :: r2' =>
      if decide (a = b) then cons a <$> bshape_rev r1' r2'
      else if decide (a = 1) then cons b <$> bshape_rev r1' r2'
      else if decide (b = 1) then cons a <$> bshape_rev r1' r2'
      else None
  end.

Definition broadcast_shapes (sh1 sh2 : list nat) : option (list nat) :=
  reverse <$> bshape_rev (reverse sh1) (reverse sh2).

(** Index into an operand of shape [sh] for the index [idx] of the
    broadcast result. *)
Definition bidx (sh idx : list nat) : list nat :=
  zip_with (fun n i => if decide (n = 1) then 0 else i) sh (drop (length idx - length sh) idx).

Definition binop {A B C} `{Inhabited A} `{Inhabited B}
    (f : A -> B -> C) (a : ndarray A) (b : ndarray B) : result (ndarray C) :=
  match broadcast_shapes (shape a) (shape b) with
  | Some sh => Ok (tabulate (promote (dtype a) (dtype b)) sh
                     (fun idx => f (get a (bidx (shape a) idx)) (get b (bidx (shape b) idx))))
  | None => Raise ValueError
  end.

(** *** Basic indexing: slices, integers and the ellipsis *)

Inductive item := Slice (lo hi : option nat) | Index (i : nat) | Ellipsis.

Definition is_ellipsis (it : item) : bool :=
  match it with Ellipsis => true | _ => false end.

Fixpoint fill_ellipsis (n : nat) (its : list item) : list item :=
  match its with
  | [] => []
  | Ellipsis :: r => replicate n (Slice None None) ++ r
  | it :: r => it :: fill_ellipsis n r
  end.

Definition expand_items (rank : nat) (its : list item) : result (list item) :=
  let explicit := length (filter (fun it => negb (is_ellipsis it)) its) in
  let dots := length its - explicit in
  if decide (dots <= 1 /\ explicit <= rank) then
    Ok (if decide (dots = 0) then its ++ replicate (rank - explicit) (Slice None None)
        else fill_ellipsis (rank - explicit) its)
  else Raise ValueError.

(** Start and length of the slice [lo:hi] on an axis of size [n]. *)
Definition clamp_slice (n : nat) (lo hi : option nat) : nat * nat :=
  let s := default 0 lo `min` n in
  let e := default n hi `min` n in
  (s, e - s).

(** Shape of the view [a[its]] that is read.  The library leaves a read at an
    integer index beyond the extent of its axis undefined; the source reads at
    an integer index only at 0 and 1 on an axis of extent 2, and the model
    raises outside the extent. *)
Fixpoint view_shape (sh : list nat) (its : list item) : result (list nat) :=
  match sh, its with
  | [], [] => Ok []
  | n :: sh', Slice lo hi :: its' =>
      r ← view_shape sh' its'; Ok ((clamp_slice n lo hi).2 :: r)
  | n :: sh', Index i :: its' =>
      if decide (i < n) then view_shape sh' its' else Raise IndexError
  | _, _ => Raise IndexError
  end.

(** Shape of the view [a[its]] that an assignment addresses.  The library
    does not check an integer index against the extent of its axis: beyond the
    extent the view has the shape it would have within, and covers no
    element. *)
Fixpoint assign_shape (sh : list nat) (its : list item) : result (list nat) :=
  match sh, its with
  | [], [] => Ok []
  | n :: sh', Slice lo hi :: its' =>
      r ← assign_shape sh' its'; Ok ((clamp_slice n lo hi).2 :: r)
  | n :: sh', Index i :: its' => assign_shape sh' its'
  | _, _ => Raise IndexError
  end.

(** Source index of the view index [v]. *)
Fixpoint view_index (sh : list nat) (its : list item) (v : list nat) : list nat :=
  match sh, its with
  | n :: sh', Slice lo hi :: its' =>
      match v with
      | i :: v' => ((clamp_slice n lo hi).1 + i) :: view_index sh' its' v'
      | [] => []
      end
  | n :: sh', Index i :: its' => i :: view_index sh' its' v
  | _, _ => []
  end.

(** View index of the source index [idx], when the view covers it. *)
Fixpoint view_of (sh : list nat) (its : list item) (idx : list nat) : option (list nat) :=
  match sh, its, idx with
  | [], [], [] => Some []
  | n :: sh', Slice lo hi :: its', i :: idx' =>
      let '(s, len) := clamp_slice n lo hi in
      if decide (s <= i < s + len) then cons (i - s) <$> view_of sh' its' idx' else None
  | n :: sh', Index j :: its', i :: idx' =>
      if decide (i = j) then view_of sh' its' idx' else None
  | _, _, _ => None
  end.

Definition getitem {A} `{Inhabited A} (a : ndarray A) (its : list item) : result (ndarray A) :=
  its' ← expand_items (length (shape a)) its;
  vsh ← view_shape (shape a) its';
  Ok (tabulate (dtype a) vsh (fun v => get a (view_index (shape a) its' v))).

(** [a[its] = val]: the value is broadcast to the view and converted to the
    dtype of [a]; the result is the array after the assignment.  An integer
    index beyond the extent of its axis covers no element, and the assignment
    then leaves every element as it was. *)
Definition setitem {F} `{Scalar F} (a : ndarray F) (its : list item) (val : ndarray F)
    : result (ndarray F) :=
  its' ← expand_items (length (shape a)) its;
  vsh ← assign_shape (shape a) its';
  if decide (broadcast_shapes (shape val) vsh = Some vsh) then
    Ok (tabulate (dtype a) (shape a) (fun idx =>
          match view_of (shape a) its' idx with
          | Some v => cast (dtype a) (get val (bidx (shape val) v))
          | None => get a idx
          end))
  else Raise ValueError.

(** *** Stacking and splitting *)

Definition stack_last {A} `{Inhabited A} (l : list (ndarray A)) : result (ndarray A) :=
  match l with
  | [] => Raise ValueError
  | a :: r =>
      if decide (Forall (fun b => shape b = shape a) r) then
        Ok (tabulate (foldr (fun b => promote (dtype b)) (dtype a) r)
              (shape a ++ [length l])
              (fun idx => get (l !!! default 0 (last idx)) (removelast idx)))
      else Raise ValueError
  end.


(** The slice [a[..., lo:hi]] of the last axis, of extent [n]; a slice that
    ends before it starts is empty. *)
Definition last_slice {A} `{Inhabited A} (a : ndarray A) (n lo : nat) (hi : option nat)
    : ndarray A :=
  tabulate (dtype a) (removelast (shape a) ++ [(clamp_slice n (Some lo) hi).2])
    (fun idx => get a (removelast idx
                       ++ [(clamp_slice n (Some lo) hi).1 + default 0 (last idx)])).

Fixpoint split_at {A} `{Inhabited A} (a : ndarray A) (n prev : nat) (indices : list nat)
    : list (ndarray A) :=
  match indices with
  | [] => [last_slice a n prev None]
  | i :: rest => last_slice a n prev (Some i) :: split_at a n i rest
  end.

(** [a.split(indices, axis=-1)] with a list: the library reads the entries as
    the positions at which the axis is cut, so that k entries give k + 1
    pieces, the piece j being the slice from entry j - 1 (from 0 for the first
    piece) to entry j (to the end of the axis for the last piece). *)
Definition split_indices {A} `{Inhabited A} (indices : list nat) (a : ndarray A)
    : result (list (ndarray A)) :=
  match last (shape a) with
  | Some n => Ok (split_at a n 0 indices)
  | None => Raise ValueError
  end.



Definition unpack3 {A} (l : list A) : result (A * A * A) :=
  match l with [a; b; c] => Ok (a, b, c) | _ => Raise ValueError end.

Definition arange (start stop step : nat) : ndarray nat :=
  NDArray int32 [(stop - start + step - 1) / step]
    ((fun i => start + i * step) <$> seq 0 ((stop - start + step - 1) / step)).

Definition ones_like {F} `{Scalar F} (a : ndarray F) : ndarray F :=
  NDArray (dtype a) (shape a) (replicate (length (data a)) fone).

Definition outer {F} `{Scalar F} (a b : ndarray F) : ndarray F :=
  tabulate (promote (dtype a) (dtype b)) [length (data a); length (data b)]
    (fun idx => fmul (data a !!! (idx !!! 0)) (data b !!! (idx !!! 1))).

(** [mx.polar(abs, angle)]: the module [mlx.core] has no attribute [polar];
    looking the name up raises the attribute error, before the arguments are
    evaluated.  The result type is that of the complex array the source goes
    on with, a complex number being the pair of its real and imaginary
    parts. *)
Definition polar {F} (r theta : ndarray F) : result (ndarray (F * F)) :=
  Raise AttributeError.

Definition real {F} (a : ndarray (F * F)) : ndarray F := map_array float32 fst a.
Definition imag {F} (a : ndarray (F * F)) : ndarray F := map_array float32 snd a.

(** [a.device]: an array of the library has no attribute [device]. *)
Definition device {A} (a : ndarray A) : result unit := Raise AttributeError.

Definition fsum {F} `{Scalar F} (l : list F) : F := foldl fadd fzero l.

(** [nn.Linear] without bias: x W^T on the last axis, [W] of shape
    (out_features, in_features). *)
Definition linear {F} `{Scalar F} (W x : ndarray F) : result (ndarray F) :=
  match shape W, last (shape x) with
  | [o; i], Some n =>
      if decide (n = i) then
        Ok (tabulate (promote (dtype x) (dtype W)) (removelast (shape x) ++ [o])
              (fun idx => fsum ((fun j => fmul (get x (removelast idx ++ [j]))
                                              (get W [default 0 (last idx); j]))
                                <$> seq 0 i)))
      else Raise ValueError
  | _, _ => Raise ValueError
  end.

(** ** The inference state

    [key_value_memory_dict] maps a layer index to that layer's cache buffer
    (the first component of the stored pair; the second is always [None]).
    The buffers are mutated in place, so the operations that touch them run in
    a state monad over [InferenceParams]; an exception leaves the state as it
    was when it was raised. *)

Record InferenceParams (F : Type) := {
  batch_size_offset : nat;
  seqlen_offset : nat;
  lengths_per_sample : ndarray nat;
  key_value_memory_dict : gmap nat (ndarray F)
}.
Arguments batch_size_offset {F} i.
Arguments seqlen_offset {F} i.
Arguments lengths_per_sample {F} i.
Arguments key_value_memory_dict {F} i.

Definition M (F A : Type) : Type := InferenceParams F -> result A * InferenceParams F.

#[export] Instance M_ret {F} : MRet (M F) := fun A a ip => (Ok a, ip).
#[export] Instance M_bind {F} : MBind (M F) :=
  fun A B f m ip =>
    match m ip with
    | (Ok a, ip') => f a ip'
    | (Raise e, ip') => (Raise e, ip')
    end.

Definition lift {F A} (r : result A) : M F A := fun ip => (r, ip).

Definition get_params {F} : M F (InferenceParams F) := fun ip => (Ok ip, ip).

Definition assert_ {F} (b : bool) : M F unit :=
  fun ip => (if b then Ok tt else Raise AssertionError, ip).

(** The state in which the buffer of layer [layer_idx] is [c]. *)
Definition set_cache {F} (layer_idx : nat) (c : ndarray F) (ip : InferenceParams F)
    : InferenceParams F :=
  {| batch_size_offset := batch_size_offset ip;
     seqlen_offset := seqlen_offset ip;
     lengths_per_sample := lengths_per_sample ip;
     key_value_memory_dict := <[layer_idx := c]> (key_value_memory_dict ip) |}.

Definition store_cache {F} (layer_idx : nat) (c : ndarray F) : M F unit :=
  fun ip => (Ok tt, set_cache layer_idx c ip).

(** ** The external primitives of the neural-network library *)

Record LayerNorm (F : Type) := { ln_weight : ndarray F; ln_bias : ndarray F; ln_eps : F }.
Arguments ln_weight {F} l.
Arguments ln_bias {F} l.
Arguments ln_eps {F} l.

Class NNLib (F : Type) := {
  scaled_dot_product_attention :
    ndarray F -> ndarray F -> ndarray F -> forall (is_causal enable_gqa : bool), result (ndarray F);
  layer_norm : LayerNorm F -> ndarray F -> result (ndarray F);
  silu : F -> F
}.

(** ** The source functions *)

(** [precompute_freqs_cis(seq_len, n_elem, base)]: the exponents
    arange(0, n_elem, 2)[: n_elem // 2] / n_elem, the inverse frequencies
    1.0 / base ** exponent and the outer product with the positions; then the
    call of [mx.polar], a name the library does not have; the last line
    stacks the real and imaginary parts of its result on a new last axis. *)
Definition precompute_freqs_cis {F} `{Transcendental F}
    (seq_len n_elem : nat) (base : F) : result (ndarray F) :=
  ar ← getitem (arange 0 n_elem 2) [Slice None (Some (n_elem / 2))];
  let freqs := map_array float32 (fun x => fdiv fone x)
                 (map_array float32 (fun x => fpow base x)
                    (map_array float32 (fun x => fdiv x (of_nat n_elem))
                       (astype_of_nat float32 ar))) in
  let t := astype_of_nat float32 (arange 0 seq_len 1) in
  let freqs := outer t freqs in
  freqs_cis ← polar (ones_like freqs) freqs;
  stack_last [real freqs_cis; imag freqs_cis].

(** [apply_rotary_emb(x, freqs_cis)]. *)
Definition apply_rotary_emb {F} `{Scalar F} (x freqs_cis : ndarray F) : result (ndarray F) :=
  xshaped ← reshape (astype float32 x) ((Some <$> removelast (shape x)) ++ [None; Some 2]);
  s1 ← shape_at xshaped 1;
  s3 ← shape_at xshaped 3;
  freqs_cis ← reshape freqs_cis [None; Some s1; Some 1; Some s3; Some 2];
  x0 ← getitem xshaped [Ellipsis; Index 0];
  f0 ← getitem freqs_cis [Ellipsis; Index 0];
  x0f0 ← binop fmul x0 f0;
  x1 ← getitem xshaped [Ellipsis; Index 1];
  f1 ← getitem freqs_cis [Ellipsis; Index 1];
  x1f1 ← binop fmul x1 f1;
  re ← binop fsub x0f0 x1f1;
  x1f0 ← binop fmul x1 f0;
  x0f1 ← binop fmul x0 f1;
  im ← binop fadd x1f0 x0f1;
  x_out2 ← stack_last [re; im];
  x_out2 ← flatten_from 3 x_out2;
  Ok (astype (dtype x) x_out2).

(** [_update_kv_cache(k, v, inference_params, layer_idx)]; the state is
    [inference_params].  The two slice assignments mutate the buffer held by
    the dictionary, one after the other.  The source's last assertion,
    [kv_cache is not None], holds of every array and has no counterpart. *)
Definition _update_kv_cache {F} `{Scalar F} (k v : ndarray F) (layer_idx : nat)
    : M F (ndarray F) :=
  inference_params ← get_params;
  assert_ (bool_decide (is_Some (key_value_memory_dict inference_params !! layer_idx)));;
  kv_cache ← lift (of_option KeyError (key_value_memory_dict inference_params !! layer_idx));
  let batch_start := batch_size_offset inference_params in
  k0 ← lift (shape_at k 0);
  let batch_end := batch_start + k0 in
  let sequence_start := seqlen_offset inference_params in
  k1 ← lift (shape_at k 1);
  let sequence_end := sequence_start + k1 in
  c0 ← lift (shape_at kv_cache 0);
  assert_ (bool_decide (batch_end <= c0));;
  c1 ← lift (shape_at kv_cache 1);
  assert_ (bool_decide (sequence_end <= c1));;
  kv_cache ← lift (setitem kv_cache
                     [Slice (Some batch_start) (Some batch_end);
                      Slice (Some sequence_start) (Some sequence_end); Index 0; Ellipsis] k);
  store_cache layer_idx kv_cache;;
  kv_cache ← lift (setitem kv_cache
                     [Slice (Some batch_start) (Some batch_end);
                      Slice (Some sequence_start) (Some sequence_end); Index 1; Ellipsis] v);
  store_cache layer_idx kv_cache;;
  lift (getitem kv_cache
          [Slice (Some batch_start) (Some batch_end); Slice None (Some sequence_end); Ellipsis]).

Record BackboneConfig (F : Type) := {
  d_model : nat;
  n_layer : nat;
  norm_epsilon : F;
  attn_cfg_num_heads : nat;
  attn_cfg_num_heads_kv : nat;
  attn_mlp_d_intermediate : nat;
  ssm_cfg : bool
}.
Arguments d_model {F} b.
Arguments n_layer {F} b.
Arguments norm_epsilon {F} b.
Arguments attn_cfg_num_heads {F} b.
Arguments attn_cfg_num_heads_kv {F} b.
Arguments attn_mlp_d_intermediate {F} b.
Arguments ssm_cfg {F} b.

(** A module is the record of its attributes; a linear layer is its weight. *)
Record Attention (F : Type) := {
  num_heads : nat;
  num_heads_kv : nat;
  head_dim : nat;
  layer_idx : nat;
  in_proj : ndarray F;
  out_proj : ndarray F
}.
Arguments num_heads {F} a.
Arguments num_heads_kv {F} a.
Arguments head_dim {F} a.
Arguments layer_idx {F} a.
Arguments in_proj {F} a.
Arguments out_proj {F} a.

Record FeedForward (F : Type) := { fc1 : ndarray F; fc2 : ndarray F }.
Arguments fc1 {F} f.
Arguments fc2 {F} f.

Record TransformerBlock (F : Type) := {
  norm : LayerNorm F;
  mixer : Attention F;
  norm2 : LayerNorm F;
  mlp : FeedForward F;
  block_num_heads_kv : nat;
  block_head_dim : nat
}.
Arguments norm {F} t.
Arguments mixer {F} t.
Arguments norm2 {F} t.
Arguments mlp {F} t.
Arguments block_num_heads_kv {F} t.
Arguments block_head_dim {F} t.

Record MLXZonosBackbone (F : Type) := {
  config : BackboneConfig F;
  layers : list (TransformerBlock F);
  norm_f : LayerNorm F;
  freqs_cis : option (ndarray F)
}.
Arguments config {F} m.
Arguments layers {F} m.
Arguments norm_f {F} m.
Arguments freqs_cis {F} m.

(** [mx.empty]: a buffer of the given shape whose contents are whatever the
    allocator left there, given by [junk]. *)
Definition empty {F} (junk : list nat -> F) (sh : list nat) (dt : Dtype) : ndarray F :=
  tabulate dt sh junk.

(** [TransformerBlock.allocate_inference_cache]: the buffer (the first
    component of the returned pair) that line 96 describes, of shape
    (batch_size, max_seqlen, 2, num_heads_kv, head_dim), of the requested
    dtype and with arbitrary contents.  The library rejects the call as it is
    written (the sizes passed as separate positional arguments raise the type
    error); the definition serves only to name the shape and dtype of the
    buffer of a layer. *)
Definition TransformerBlock_allocate_inference_cache {F} (self : TransformerBlock F)
    (junk : list nat -> F) (batch_size max_seqlen : nat) (dt : Dtype) : ndarray F :=
  empty junk [batch_size; max_seqlen; 2; block_num_heads_kv self; block_head_dim self] dt.

(** [Attention.forward(x, inference_params, freqs_cis)], lines 117 to 121: the
    unpacking of the shape of [x], the projection and the split of its result
    into [q, k, v].  The library reads the list passed to [split] as cut
    positions, so the split has four pieces and the unpacking into three names
    raises the value error.  The value of the definition is the triple that
    the lines 123 to 140 (rotary embedding, cache update, attention, output
    projection) would go on with; no input reaches them, as is proved
    below. *)
Definition Attention_forward {F} `{Scalar F}
    (self : Attention F) (x freqs_cis : ndarray F) : M F (ndarray F * ndarray F * ndarray F) :=
  '(batch_size, seqlen, _) ← lift (unpack3 (shape x));
  let q_size := num_heads self * head_dim self in
  let kv_size := num_heads_kv self * head_dim self in
  qkv ← lift (linear (in_proj self) x);
  lift (split_indices [q_size; kv_size; kv_size] qkv ≫= unpack3).


(** [MLXZonosBackbone.forward(hidden_states, inference_params)], line 73: the
    positions arange(0, hidden_states.shape[1]) are requested on
    [hidden_states.device], an attribute that an array of the library does not
    have.  The value of the definition is the array of positions that the
    lines 74 to 79 (the absolute positions, the slice of the rotary table, the
    blocks and the final normalisation) would go on with; no input reaches
    them, whether or not [self.freqs_cis] is set. *)
Definition MLXZonosBackbone_forward {F}
    (self : MLXZonosBackbone F) (hidden_states : ndarray F) : M F (ndarray nat) :=
  n1 ← lift (shape_at hidden_states 1);
  lift (device hidden_states);;
  mret (arange 0 n1 1).

(** ** Notions used to state the properties *)

(** The index a size-[n] axis is read at under broadcasting. *)
Definition bfix (n i : nat) : nat := if decide (n = 1) then 0 else i.

(** The broadcast of two axis sizes. *)
Definition bdim (a b : nat) : option nat :=
  if decide (a = b) then Some a
  else if decide (a = 1) then Some b
  else if decide (b = 1) then Some a else None.

(** The array [a] read with the shape [sh]. *)
Definition as_shape {A} (sh : list nat) (a : ndarray A) : ndarray A :=
  NDArray (dtype a) sh (data a).

(** The rotated pair component [j] of pair [i] at batch [b], position [s],
    head [h], in the operand order of the source. *)
Definition rot_entry {F} `{Scalar F} (x fc : ndarray F) (B B' S D2 : nat) (idx : list nat) : F :=
  match idx with
  | [b; s; h; i; j] =>
      let a := cast float32 (get x [bfix B b; s; h; 2 * i]) in
      let b_ := cast float32 (get x [bfix B b; s; h; 2 * i + 1]) in
      let c := get (as_shape [B'; S; D2; 2] fc) [bfix B' b; s; i; 0] in
      let sn := get (as_shape [B'; S; D2; 2] fc) [bfix B' b; s; i; 1] in
      if decide (j = 0) then fsub (fmul a c) (fmul b_ sn)
      else fadd (fmul b_ c) (fmul a sn)
  | _ => fzero
  end.

(** [a.take(ixs, axis=ax)]: the entries of [a] along axis [ax] at the
    indices [ixs]. *)
Definition take_axis {A} `{Inhabited A} (ax : nat) (ixs : list nat) (a : ndarray A)
    : result (ndarray A) :=
  match shape a !! ax with
  | Some n =>
      if decide (Forall (fun i => i < n) ixs) then
        Ok (tabulate (dtype a) (<[ax := length ixs]> (shape a))
              (fun idx => get a (<[ax := ixs !!! (idx !!! ax)]> idx)))
      else Raise IndexError
  | None => Raise IndexError
  end.

#[export] Instance Z_scalar : Scalar Z :=
  {| fzero := 0%Z; fone := 1%Z; fadd := Z.add; fsub := Z.sub; fmul := Z.mul;
     cast := fun _ x => x |}.

(** Real numbers: the exact arithmetic that the floating-point operations
    approximate; a dtype conversion changes nothing. *)
#[export] Instance R_scalar : Scalar R :=
  {| fzero := 0%R; fone := 1%R; fadd := Rplus; fsub := Rminus; fmul := Rmult;
     cast := fun _ x => x |}.

#[export] Instance R_transcendental : Transcendental R :=
  {| fdiv := Rdiv; fpow := Rpower; fcos := cos; fsin := sin; of_nat := INR |}.

Definition fopp {F} `{Scalar F} (x : F) : F := fsub fzero x.

(** The buffer after [a[bs:bs+Bk, ss:ss+Sk, c, ...] = val], entry by entry. *)
Definition write_window {F} `{Scalar F} (a val : ndarray F) (bs ss c : nat) (idx : list nat) : F :=
  match idx, shape val with
  | [b; s; c'; h; d], [Bk; Sk; _; _] =>
      if decide ((bs <= b < bs + Bk) /\ (ss <= s < ss + Sk) /\ c' = c)
      then cast (dtype a) (get val [b - bs; s - ss; h; d])
      else get a idx
  | _, _ => get a idx
  end.

(** The view [a[bs:, ...]] entry by entry. *)
Definition prefix_entry {F} `{Scalar F} (a : ndarray F) (bs : nat) (idx : list nat) : F :=
  match idx with
  | [b; s; c; h; d] => get a [bs + b; s; c; h; d]
  | _ => fzero
  end.

(** Modelled from the spec: the driver's step between two writes (the
    generation loop is not part of this file; "the driver is responsible for
    incrementing offsets"): the sequence offset advances by the length of the
    chunk just written. *)
Definition advance_seqlen {F} (n : nat) : M F unit :=
  fun ip => (Ok tt,
             {| batch_size_offset := batch_size_offset ip;
                seqlen_offset := seqlen_offset ip + n;
                lengths_per_sample := lengths_per_sample ip;
                key_value_memory_dict := key_value_memory_dict ip |}).

(** Modelled from the spec: a sequence of incremental writes to the cache of
    one layer, each starting where the previous one ended; the result is the
    list of the prefixes returned by the writes. *)
Fixpoint write_chunks {F} `{Scalar F} (layer_idx : nat) (chunks : list (ndarray F * ndarray F))
    : M F (list (ndarray F)) :=
  match chunks with
  | [] => mret []
  | (k, v) :: rest =>
      prefix ← _update_kv_cache k v layer_idx;
      n ← lift (shape_at k 1);
      advance_seqlen n;;
      prefixes ← write_chunks layer_idx rest;
      mret (prefix :: prefixes)
  end.

Definition chunk_batch {F} (kv : ndarray F * ndarray F) : nat := default 0 (shape kv.1 !! 0).
Definition chunk_len {F} (kv : ndarray F * ndarray F) : nat := default 0 (shape kv.1 !! 1).

(** The sequence offset at which the [m]-th write of [chunks] begins, counted
    from the offset of the first. *)
Definition offset_before {F} (chunks : list (ndarray F * ndarray F)) (m : nat) : nat :=
  sum_list (chunk_len <$> take m chunks).

(** A chunk of keys and values that fits the heads of the buffer and its batch
    capacity. *)
Definition chunk_ok {F} (ip : InferenceParams F) (Bc Hh D : nat) (kv : ndarray F * ndarray F) : Prop :=
  exists Bk Sk, shape kv.1 = [Bk; Sk; Hh; D] /\ shape kv.2 = [Bk; Sk; Hh; D]
                /\ batch_size_offset ip + Bk <= Bc.



(** ** A reference attention primitive and a small integer instance

    [sdpa_linear] is attention without the softmax: the output at query
    position i is the sum over the key positions j of (q_i . k_j) v_j, over
    the positions up to that of the query when the mask is on; each group of
    Hq / Hk query heads reads one key/value head.  It instantiates the
    library interface in the examples. *)

Definition sdpa_linear {F} `{Scalar F} (q k v : ndarray F) (is_causal enable_gqa : bool)
    : result (ndarray F) :=
  match shape q, shape k with
  | [Bq; Hq; Lq; D], [_; Hk; Sk; _] =>
      Ok (tabulate (dtype q) [Bq; Hq; Lq; D] (fun idx =>
            match idx with
            | [b; h; i; d] =>
                let g := h / (Hq / Hk) in
                let n := if is_causal then Nat.min Sk (i + (Sk - Lq) + 1) else Sk in
                fsum ((fun j =>
                         fmul (fsum ((fun e => fmul (get q [b; h; i; e]) (get k [b; g; j; e]))
                                     <$> seq 0 D))
                              (get v [b; g; j; d]))
                      <$> seq 0 n)
            | _ => fzero
            end))
  | _, _ => Raise ValueError
  end.

#[export] Instance Z_nnlib : NNLib Z :=
  {| scaled_dot_product_attention := sdpa_linear;
     layer_norm := fun _ x => Ok x;
     silu := fun x => x |}.

Module Example.

Definition attn : Attention Z :=
  {| num_heads := 2; num_heads_kv := 1; head_dim := 2; layer_idx := 0;
     in_proj := NDArray float32 [8; 2] [1; 0; 0; 1; 1; 1; 2; 0; 0; 2; 1; 2; 3; 1; 1; 3]%Z;
     out_proj := NDArray float32 [2; 4] [1; 2; 0; 1; 0; 1; 1; 0]%Z |}.

Definition ln : LayerNorm Z :=
  {| ln_weight := NDArray float32 [2] [1; 1]%Z; ln_bias := NDArray float32 [2] [0; 0]%Z;
     ln_eps := 0%Z |}.

Definition ff : FeedForward Z :=
  {| fc1 := NDArray float32 [4; 2] [1; 0; 0; 1; 1; 1; 1; 0]%Z;
     fc2 := NDArray float32 [2; 2] [1; 1; 0; 1]%Z |}.

Definition block : TransformerBlock Z :=
  {| norm := ln; mixer := attn; norm2 := ln; mlp := ff;
     block_num_heads_kv := 1; block_head_dim := 2 |}.

(** Hidden states of one sequence of two positions. *)
Definition x : ndarray Z := NDArray float32 [1; 2; 2] [1; 2; 3; 4]%Z.
(** A table slice for two positions and one frequency: a quarter turn at
    position 0 and no rotation at position 1; and the slice of the opposite
    angles. *)
Definition fc : ndarray Z := NDArray float32 [1; 2; 1; 2] [0; 1; 1; 0]%Z.
Definition fc_neg : ndarray Z := NDArray float32 [1; 2; 1; 2] [0; -1; 1; 0]%Z.

(** Keys of one sequence, two positions, two heads, head dimension 2. *)
Definition heads : ndarray Z := NDArray bfloat16 [1; 2; 2; 2] [1; 2; 3; 4; 5; 6; 7; 8]%Z.

Definition cache : ndarray Z :=
  TransformerBlock_allocate_inference_cache block (fun _ => 0%Z) 1 2 bfloat16.

Definition ip : InferenceParams Z :=
  {| batch_size_offset := 0; seqlen_offset := 0;
     lengths_per_sample := NDArray int32 [1] [0];
     key_value_memory_dict := {[ 0 := cache ]} |}.

Definition k1 : ndarray Z := NDArray bfloat16 [1; 1; 1; 2] [1; 2]%Z.
Definition v1 : ndarray Z := NDArray bfloat16 [1; 1; 1; 2] [3; 4]%Z.
Definition k2 : ndarray Z := NDArray bfloat16 [1; 1; 1; 2] [5; 6]%Z.
Definition v2 : ndarray Z := NDArray bfloat16 [1; 1; 1; 2] [7; 8]%Z.

Definition table : ndarray Z := NDArray float32 [3; 1; 2] [1; 0; 0; 1; -1; 0]%Z.

(** An input of rank 5 with last axis 2, and a table slice with the leading
    axes of the input followed by (1, 2). *)
Definition x5 : ndarray Z := NDArray bfloat16 [1; 1; 1; 2; 2] [1; 2; 3; 4]%Z.
Definition fc5 : ndarray Z := NDArray float32 [1; 1; 1; 2; 1; 2] [0; 1; 1; 0]%Z.

End Example.

(** ** Further notions used to state the properties *)

(** The state [ip'] is the state [ip] except for the contents of the buffers
    of the layers in [L]: the offsets, the lengths, the layers that have a
    buffer, and the shape and dtype of every buffer are the same. *)
Definition frame {F} (L : nat -> Prop) (ip ip' : InferenceParams F) : Prop :=
  batch_size_offset ip' = batch_size_offset ip /\
  seqlen_offset ip' = seqlen_offset ip /\
  lengths_per_sample ip' = lengths_per_sample ip /\
  forall l, match key_value_memory_dict ip !! l, key_value_memory_dict ip' !! l with
            | Some c, Some c' => (L l \/ c' = c) /\ shape c' = shape c /\ dtype c' = dtype c
            | None, None => True
            | _, _ => False
            end.

(** The state after the assignment [inference_params.seqlen_offset = n]. *)
Definition with_seqlen_offset {F} (n : nat) (ip : InferenceParams F) : InferenceParams F :=
  {| batch_size_offset := batch_size_offset ip;
     seqlen_offset := n;
     lengths_per_sample := lengths_per_sample ip;
     key_value_memory_dict := key_value_memory_dict ip |}.

Module Sample.

(** Keys and values of two positions; [Example.k1], [Example.k2] and
    [Example.v1], [Example.v2] are their two halves. *)
Definition k_pair : ndarray Z := NDArray bfloat16 [1; 2; 1; 2] [1; 2; 5; 6]%Z.
Definition v_pair : ndarray Z := NDArray bfloat16 [1; 2; 1; 2] [3; 4; 7; 8]%Z.

(** A state with the buffers of two layers. *)
Definition ip2 : InferenceParams Z :=
  {| batch_size_offset := 0; seqlen_offset := 0;
     lengths_per_sample := NDArray int32 [1] [0];
     key_value_memory_dict := {[ 0 := Example.cache; 1 := Example.cache ]} |}.

(** A key with two heads, for a buffer of one head. *)
Definition k_heads : ndarray Z := NDArray bfloat16 [1; 1; 2; 2] [1; 2; 3; 4]%Z.

(** An input with an odd last axis, one with two axes, and the table of the
    pairs (1, 0). *)
Definition x_odd : ndarray Z := NDArray bfloat16 [1; 1; 1; 3] [1; 2; 3]%Z.
Definition x_flat : ndarray Z := NDArray bfloat16 [2; 2] [1; 2; 3; 4]%Z.
Definition fc_id : ndarray Z := NDArray float32 [1; 2; 1; 2] [1; 0; 1; 0]%Z.

(** An attention layer, a block and a backbone whose attributes fit the
    configuration d_model = 4, two query heads, one key/value head (so
    head_dim = 4 // 2 = 2) and an intermediate width of 2; the rotary table
    holds three positions and one frequency. *)
Definition attn4 : Attention Z :=
  {| num_heads := 2; num_heads_kv := 1; head_dim := 2; layer_idx := 0;
     in_proj := NDArray float32 [8; 4]
                  [1; 0; 0; 1; 0; 1; 1; 0; 1; 1; 0; 0; 0; 0; 1; 1;
                   2; 0; 1; 0; 0; 2; 0; 1; 1; 0; 3; 0; 0; 1; 0; 3]%Z;
     out_proj := NDArray float32 [4; 4] [1; 2; 0; 1; 0; 1; 1; 0; 1; 0; 0; 1; 0; 1; 2; 0]%Z |}.

Definition ln4 : LayerNorm Z :=
  {| ln_weight := NDArray float32 [4] [1; 1; 1; 1]%Z;
     ln_bias := NDArray float32 [4] [0; 0; 0; 0]%Z;
     ln_eps := 1%Z |}.

Definition ff4 : FeedForward Z :=
  {| fc1 := NDArray float32 [4; 4] [1; 0; 0; 1; 0; 1; 1; 0; 1; 1; 0; 0; 0; 0; 1; 1]%Z;
     fc2 := NDArray float32 [4; 2] [1; 1; 0; 1; 1; 0; 2; 1]%Z |}.

Definition block4 : TransformerBlock Z :=
  {| norm := ln4; mixer := attn4; norm2 := ln4; mlp := ff4;
     block_num_heads_kv := 1; block_head_dim := 2 |}.

Definition backbone4 : MLXZonosBackbone Z :=
  {| config := {| d_model := 4; n_layer := 1; norm_epsilon := 1%Z;
                  attn_cfg_num_heads := 2; attn_cfg_num_heads_kv := 1;
                  attn_mlp_d_intermediate := 2; ssm_cfg := false |};
     layers := [block4]; norm_f := ln4; freqs_cis := Some Example.table |}.

(** Hidden states of one sequence: a chunk of two positions, and a chunk of
    one position. *)
Definition x4 : ndarray Z := NDArray float32 [1; 2; 4] [1; 2; 3; 4; 5; 6; 7; 8]%Z.
Definition x4_step : ndarray Z := NDArray float32 [1; 1; 4] [5; 6; 7; 8]%Z.

End Sample.

(** ** Core lemmas on indexing *)

Lemma lookup_concat_uniform {B} (f : nat -> list B) (m n s i j : nat) :
  (forall k, length (f k) = m) -> i < n -> j < m ->
  concat (f <$> seq s n) !! (i * m + j) = f (s + i) !! j.
Proof.
  intros Hlen. revert s i. induction n as [|n IH]; intros s i Hi Hj; [lia|].
  cbn [seq fmap list_fmap concat]. destruct i as [|i].
  - rewrite lookup_app_l by (rewrite Hlen; lia).
    by rewrite Nat.add_0_r.
  - rewrite lookup_app_r by (rewrite Hlen; lia).
    rewrite Hlen. replace (S i * m + j - m) with (i * m + j) by lia.
    change (list_fmap nat (list B) f (seq (S s) n)) with (f <$> seq (S s) n).
    rewrite IH by lia. by replace (S s + i) with (s + S i) by lia.
Qed.

Lemma length_concat_uniform {B} (f : nat -> list B) (m n s : nat) :
  (forall k, length (f k) = m) -> length (concat (f <$> seq s n)) = n * m.
Proof.
  intros Hlen. revert s. induction n as [|n IH]; intros s; [done|].
  cbn [seq fmap list_fmap concat]. rewrite length_app, Hlen.
  change (list_fmap nat (list B) f (seq (S s) n)) with (f <$> seq (S s) n).
  rewrite IH. lia.
Qed.

Lemma length_indices sh : length (indices sh) = numel sh.
Proof.
  induction sh as [|n sh IH]; [done|]. cbn [indices numel foldr].
  rewrite (length_concat_uniform _ (numel sh)).
  - done.
  - intros k. by rewrite length_fmap.
Qed.

Lemma ravel_lt sh idx : in_bounds sh idx = true -> ravel sh idx < numel sh.
Proof.
  revert idx. induction sh as [|n sh IH]; intros [|i idx] Hb; try done.
  - cbn. lia.
  - cbn in Hb. apply andb_true_iff in Hb as [Hi Hb%IH].
    apply Nat.ltb_lt in Hi. cbn [ravel numel foldr]. fold (numel sh). nia.
Qed.

Lemma lookup_indices sh idx :
  in_bounds sh idx = true -> indices sh !! ravel sh idx = Some idx.
Proof.
  revert idx. induction sh as [|n sh IH]; intros [|i idx] Hb; try done.
  cbn in Hb. apply andb_true_iff in Hb as [Hi Hb]. apply Nat.ltb_lt in Hi.
  cbn [indices ravel].
  rewrite (lookup_concat_uniform _ (numel sh)).
  - rewrite list_lookup_fmap, (IH _ Hb). done.
  - intros k. by rewrite length_fmap, length_indices.
  - done.
  - by apply ravel_lt.
Qed.

Lemma lookup_indices_inv sh k idx :
  indices sh !! k = Some idx -> in_bounds sh idx = true /\ ravel sh idx = k.
Proof.
  revert k idx. induction sh as [|n sh IH]; intros k idx Hk.
  - destruct k; cbn in Hk; [|done]. by simplify_eq.
  - pose proof (lookup_lt_Some _ _ _ Hk) as Lk.
    rewrite length_indices in Lk. cbn [numel foldr] in Lk. fold (numel sh) in Lk.
    assert (Hpos : numel sh <> 0) by (intros E; rewrite E in Lk; lia).
    pose proof (Nat.div_mod_eq k (numel sh)) as Ek.
    pose proof (Nat.mod_upper_bound k (numel sh) Hpos) as Mk.
    assert (Dk : k / numel sh < n) by (apply Nat.Div0.div_lt_upper_bound; lia).
    cbn [indices] in Hk.
    replace k with (k / numel sh * numel sh + k mod numel sh) in Hk at 1 by lia.
    rewrite (lookup_concat_uniform _ (numel sh)) in Hk;
      [|intros; by rewrite length_fmap, length_indices|done|done].
    rewrite list_lookup_fmap in Hk.
    destruct (indices sh !! (k mod numel sh)) as [idx'|] eqn:E; [|done].
    cbn in Hk. simplify_eq. destruct (IH _ _ E) as [Hb Hr].
    cbn [in_bounds ravel]. rewrite Hb, Hr, andb_true_r. split; [|lia].
    by apply Nat.ltb_lt.
Qed.

Lemma ravel_indices sh : ravel sh <$> indices sh = seq 0 (numel sh).
Proof.
  apply list_eq. intros k. rewrite list_lookup_fmap.
  destruct (decide (k < numel sh)) as [Hk|Hk].
  - rewrite lookup_seq_lt by done.
    destruct (lookup_lt_is_Some_2 (indices sh) k) as [idx Hidx];
      [by rewrite length_indices|].
    rewrite Hidx. cbn. f_equal. by apply lookup_indices_inv in Hidx as [_ ?].
  - rewrite lookup_seq_ge by lia.
    rewrite (lookup_ge_None_2 (indices sh)) by (rewrite length_indices; lia). done.
Qed.

Lemma get_tabulate {A} `{Inhabited A} dt sh (f : list nat -> A) idx :
  in_bounds sh idx = true -> get (tabulate dt sh f) idx = f idx.
Proof.
  intros Hb. unfold get, tabulate. cbn.
  apply list_lookup_total_correct.
  by rewrite list_lookup_fmap, lookup_indices.
Qed.

Lemma wf_tabulate {A} dt sh (f : list nat -> A) : wf (tabulate dt sh f).
Proof. unfold wf, tabulate. cbn. by rewrite length_fmap, length_indices. Qed.

Lemma tabulate_ext {A} dt sh (f g : list nat -> A) :
  (forall idx, in_bounds sh idx = true -> f idx = g idx) ->
  tabulate dt sh f = tabulate dt sh g.
Proof.
  intros Hfg. unfold tabulate. f_equal.
  apply list_fmap_ext. intros k idx Hk. apply Hfg.
  by apply lookup_indices_inv in Hk as [? _].
Qed.

Lemma tabulate_get {A} `{Inhabited A} (a : ndarray A) :
  wf a -> tabulate (dtype a) (shape a) (get a) = a.
Proof.
  intros Hwf. destruct a as [dt sh d]. red in Hwf. cbn [data shape] in Hwf.
  unfold tabulate, get. cbn [data shape dtype].
  f_equal. change (fun idx => d !!! ravel sh idx) with ((fun k => d !!! k) ∘ ravel sh).
  rewrite list_fmap_compose.
  rewrite ravel_indices, <- Hwf.
  apply list_eq. intros k. rewrite list_lookup_fmap.
  destruct (decide (k < length d)) as [Hk|Hk].
  - rewrite lookup_seq_lt by done. cbn.
    destruct (lookup_lt_is_Some_2 d k Hk) as [x Hx]. rewrite Hx. f_equal.
    by apply list_lookup_total_correct.
  - rewrite lookup_seq_ge by lia. by rewrite lookup_ge_None_2 by lia.
Qed.

Lemma ndarray_ext {A} `{Inhabited A} (a b : ndarray A) :
  wf a -> wf b -> dtype a = dtype b -> shape a = shape b ->
  (forall idx, in_bounds (shape a) idx = true -> get a idx = get b idx) ->
  a = b.
Proof.
  intros Ha Hb Hd Hs Hg.
  rewrite <- (tabulate_get a Ha), <- (tabulate_get b Hb), Hd, <- Hs.
  by apply tabulate_ext.
Qed.

(** ** Lemmas on the array operations *)

Lemma bfix_lt n i : i < n -> bfix n i = i.
Proof. unfold bfix. case_decide; lia. Qed.

Lemma bfix_bdim_l a b c i : bdim a b = Some c -> i < c -> bfix a i < a.
Proof. unfold bdim, bfix. repeat case_decide; intros; simplify_eq; lia. Qed.

Lemma bfix_bdim_r a b c i : bdim a b = Some c -> i < c -> bfix b i < b.
Proof. unfold bdim, bfix. repeat case_decide; intros; simplify_eq; lia. Qed.

Lemma bshape_rev_refl r : bshape_rev r r = Some r.
Proof.
  induction r as [|a r IH]; [done|]. cbn. rewrite decide_True by done. by rewrite IH.
Qed.

Lemma broadcast_shapes_refl sh : broadcast_shapes sh sh = Some sh.
Proof. unfold broadcast_shapes. rewrite bshape_rev_refl. cbn. by rewrite reverse_involutive. Qed.

Lemma broadcast_shapes4 B B' Bo S Hh D2 :
  bdim B B' = Some Bo ->
  broadcast_shapes [B; S; Hh; D2] [B'; S; 1; D2] = Some [Bo; S; Hh; D2].
Proof.
  intros Hb. unfold broadcast_shapes. cbn.
  rewrite !decide_True by done.
  unfold bdim in Hb.
  destruct (decide (Hh = 1)) as [->|]; cbn; rewrite ?decide_True by done; cbn;
  repeat case_decide; simplify_eq; done.
Qed.

Lemma reshape_infer {A} (a : ndarray A) dims kn m :
  count_holes dims = 1 -> known_numel dims = kn -> kn <> 0 ->
  numel (shape a) = kn * m ->
  reshape a dims = Ok (NDArray (dtype a) (default m <$> dims) (data a)).
Proof.
  intros Hh Hk Hz Hn. unfold reshape. rewrite Hh, Hk, Hn.
  rewrite decide_True by (split; [done|]; rewrite Nat.mul_comm; apply Nat.Div0.mod_mul).
  by rewrite Nat.mul_comm, Nat.div_mul.
Qed.

Lemma binop_ok {A B C} `{Inhabited A} `{Inhabited B} (f : A -> B -> C) a b sh :
  broadcast_shapes (shape a) (shape b) = Some sh ->
  binop f a b = Ok (tabulate (promote (dtype a) (dtype b)) sh
                     (fun idx => f (get a (bidx (shape a) idx)) (get b (bidx (shape b) idx)))).
Proof. intros Hs. unfold binop. by rewrite Hs. Qed.

Lemma in_bounds_cons_inv n sh idx :
  in_bounds (n :: sh) idx = true ->
  exists i idx', idx = i :: idx' /\ i < n /\ in_bounds sh idx' = true.
Proof.
  destruct idx as [|i idx']; [done|]. cbn. intros [Hi Hb]%andb_true_iff.
  apply Nat.ltb_lt in Hi. eauto.
Qed.

Lemma in_bounds_nil_inv idx : in_bounds [] idx = true -> idx = [].
Proof. by destruct idx. Qed.

Lemma in_bounds_cons n sh i idx :
  i < n -> in_bounds sh idx = true -> in_bounds (n :: sh) (i :: idx) = true.
Proof. intros Hi Hb. cbn. rewrite Hb, andb_true_r. by apply Nat.ltb_lt. Qed.

Ltac inv_bounds :=
  repeat match goal with
  | Hb : in_bounds (_ :: _) _ = true |- _ =>
      apply in_bounds_cons_inv in Hb as (? & ? & -> & ? & Hb)
  | Hb : in_bounds [] _ = true |- _ => apply in_bounds_nil_inv in Hb as ->
  end.

Ltac solve_bounds :=
  repeat (apply in_bounds_cons; [try lia|]); try reflexivity.


Lemma in_bounds4_inv n0 n1 n2 n3 idx :
  in_bounds [n0; n1; n2; n3] idx = true ->
  exists i0 i1 i2 i3, idx = [i0; i1; i2; i3] /\ i0 < n0 /\ i1 < n1 /\ i2 < n2 /\ i3 < n3.
Proof. intros Hb. inv_bounds. eauto 10. Qed.

Lemma in_bounds5_inv n0 n1 n2 n3 n4 idx :
  in_bounds [n0; n1; n2; n3; n4] idx = true ->
  exists i0 i1 i2 i3 i4, idx = [i0; i1; i2; i3; i4]
    /\ i0 < n0 /\ i1 < n1 /\ i2 < n2 /\ i3 < n3 /\ i4 < n4.
Proof. intros Hb. inv_bounds. eauto 12. Qed.

Lemma getitem_last5 {A} `{Inhabited A} (a : ndarray A) n0 n1 n2 n3 n4 j :
  shape a = [n0; n1; n2; n3; n4] -> j < n4 ->
  getitem a [Ellipsis; Index j]
  = Ok (tabulate (dtype a) [n0; n1; n2; n3] (fun idx => get a (idx ++ [j]))).
Proof.
  intros Hs Hj. unfold getitem. rewrite Hs.
  replace (expand_items (length [n0; n1; n2; n3; n4]) [Ellipsis; Index j])
    with (Ok [Slice None None; Slice None None; Slice None None; Slice None None; Index j])
    by reflexivity.
  cbn. rewrite decide_True by done. cbn. rewrite !Nat.min_id, !Nat.sub_0_r.
  f_equal. apply tabulate_ext. intros idx Hb.
  by inv_bounds.
Qed.

Lemma bidx4 n0 n1 n2 n3 i0 i1 i2 i3 :
  bidx [n0; n1; n2; n3] [i0; i1; i2; i3] = [bfix n0 i0; bfix n1 i1; bfix n2 i2; bfix n3 i3].
Proof. reflexivity. Qed.

(** ** The rotary applier in closed form *)

Section Rotary.
Context {F : Type} `{Scalar F}.

Lemma apply_rotary_emb_eq (x fc : ndarray F) B B' Bo S Hh D2 :
  shape x = [B; S; Hh; 2 * D2] -> wf x ->
  numel (shape fc) = B' * (S * (D2 * 2)) -> 
  0 < B -> 0 < S -> 0 < Hh -> 0 < D2 ->
  bdim B B' = Some Bo ->
  apply_rotary_emb x fc
  = Ok (NDArray (dtype x) [Bo; S; Hh; 2 * D2]
          (cast (dtype x) <$> (rot_entry x fc B B' S D2 <$> indices [Bo; S; Hh; D2; 2]))).
Proof.
  intros Hs Hwf Hfc HB HS HH HD Hbd. unfold apply_rotary_emb.
  rewrite (reshape_infer _ _ (B * (S * (Hh * 2))) D2);
    [|by rewrite Hs|by rewrite Hs; cbn; lia|cbn; nia|cbn; rewrite Hs; cbn; lia].
  rewrite Hs. cbn [mbind result_bind shape_at shape lookup list_lookup of_option fmap list_fmap removelast app from_option Datatypes.id dtype data astype].
  rewrite (reshape_infer _ _ (S * (1 * (D2 * 2))) B'); [|done|cbn; lia|cbn; nia|cbn [dtype shape data]; lia].
  cbn [mbind result_bind fmap list_fmap from_option Datatypes.id].
  set (xs := NDArray float32 [B; S; Hh; D2; 2] _).
  set (fcr := NDArray (dtype fc) [B'; S; 1; D2; 2] _).
  rewrite (getitem_last5 xs B S Hh D2 2 0), (getitem_last5 xs B S Hh D2 2 1) by (done || lia).
  rewrite (getitem_last5 fcr B' S 1 D2 2 0), (getitem_last5 fcr B' S 1 D2 2 1) by (done || lia).
  cbn [mbind result_bind].
  pose proof (broadcast_shapes4 B B' Bo S Hh D2 Hbd) as Hbs.
  repeat (rewrite (binop_ok _ _ _ [Bo; S; Hh; D2])
            by (cbn [shape tabulate]; (exact Hbs || apply broadcast_shapes_refl));
          cbn [mbind result_bind]).
  unfold stack_last. rewrite decide_True by (by repeat constructor).
  cbn [mbind result_bind]. unfold flatten_from.
  rewrite decide_True by (cbn; lia). cbn [mbind result_bind].
  unfold astype. cbn [dtype shape data tabulate take drop app numel foldr length].
  replace (D2 * (2 * 1)) with (2 * D2) by lia.
  do 3 f_equal.
  apply list_fmap_ext. intros k idx Hk.
  apply lookup_indices_inv in Hk as [Hb _].
  apply in_bounds5_inv in Hb as (b & s & h & i & j & -> & Hb & Hs' & Hh' & Hi & Hj).
  pose proof (bfix_bdim_l _ _ _ b Hbd ltac:(done)) as Hb1.
  pose proof (bfix_bdim_r _ _ _ b Hbd ltac:(done)) as Hb2.
  assert (Hlen : length (data x) = B * (S * (Hh * (2 * D2)))).
  { rewrite Hwf, Hs. cbn. lia. }
  assert (Hx : forall e, e < 2 ->
            get xs [bfix B b; s; h; i; e] = cast float32 (get x [bfix B b; s; h; 2 * i + e])).
  { intros e He. unfold get, xs. rewrite Hs. cbn [data shape].
    assert (Hr : ravel [B; S; Hh; D2; 2] [bfix B b; s; h; i; e]
                 = ravel [B; S; Hh; 2 * D2] [bfix B b; s; h; 2 * i + e])
      by (cbn [ravel numel foldr]; lia).
    rewrite Hr. apply list_lookup_total_fmap. rewrite Hlen.
    pose proof (ravel_lt [B; S; Hh; 2 * D2] [bfix B b; s; h; 2 * i + e]) as Hlt.
    cbn [numel foldr] in Hlt. rewrite Nat.mul_1_r in Hlt. apply Hlt. solve_bounds. }
  assert (Hf : forall e, get fcr [bfix B' b; s; 0; i; e]
                         = get (as_shape [B'; S; D2; 2] fc) [bfix B' b; s; i; e]).
  { intros e. unfold get, fcr, as_shape. cbn [data shape]. f_equal.
    cbn [ravel numel foldr]. lia. }
  unfold rot_entry. cbn [last removelast from_option Datatypes.id].
  assert (Hone : bfix 1 h = 0) by done.
  destruct j as [|[|j]]; [| |lia]; cbn [lookup_total list_lookup_total];
    repeat (progress (rewrite ?bidx4, ?Hone, ?(bfix_lt Bo), ?(bfix_lt S), ?(bfix_lt Hh),
                        ?(bfix_lt D2), ?get_tabulate by (done || solve_bounds)));
    cbn [app]; rewrite !Hx, !Hf by lia; rewrite ?Nat.add_0_r; done.
Qed.

End Rotary.

Lemma get_pairs {A} `{Inhabited A} dt (g : list nat -> A) n0 n1 n2 D2 b s h i j :
  b < n0 -> s < n1 -> h < n2 -> i < D2 -> j < 2 ->
  get (NDArray dt [n0; n1; n2; 2 * D2] (g <$> indices [n0; n1; n2; D2; 2])) [b; s; h; 2 * i + j]
  = g [b; s; h; i; j].
Proof.
  intros Hb Hs Hh Hi Hj. unfold get. cbn [data shape].
  apply list_lookup_total_correct.
  replace (ravel [n0; n1; n2; 2 * D2] [b; s; h; 2 * i + j])
    with (ravel [n0; n1; n2; D2; 2] [b; s; h; i; j]) by (cbn [ravel numel foldr]; lia).
  rewrite list_lookup_fmap, lookup_indices by solve_bounds. done.
Qed.

Lemma pair_split e D2 : e < 2 * D2 -> exists i j, e = 2 * i + j /\ i < D2 /\ j < 2.
Proof.
  intros He. exists (e / 2), (e mod 2).
  pose proof (Nat.div_mod_eq e 2). pose proof (Nat.mod_upper_bound e 2).
  split; [lia|]. split; [|lia]. apply Nat.Div0.div_lt_upper_bound. lia.
Qed.

Section RotarySpec.
Context {F : Type} `{Scalar F}.

Lemma apply_rotary_emb_spec (x fc : ndarray F) B B' Bo S Hh D2 :
  shape x = [B; S; Hh; 2 * D2] -> wf x ->
  numel (shape fc) = B' * (S * (D2 * 2)) ->
  0 < B -> 0 < S -> 0 < Hh -> 0 < D2 ->
  bdim B B' = Some Bo ->
  exists out,
    apply_rotary_emb x fc = Ok out /\
    dtype out = dtype x /\
    shape out = [Bo; S; Hh; 2 * D2] /\
    wf out /\
    forall b s h i, b < Bo -> s < S -> h < Hh -> i < D2 ->
      let a := cast float32 (get x [bfix B b; s; h; 2 * i]) in
      let b_ := cast float32 (get x [bfix B b; s; h; 2 * i + 1]) in
      let c := get (as_shape [B'; S; D2; 2] fc) [bfix B' b; s; i; 0] in
      let sn := get (as_shape [B'; S; D2; 2] fc) [bfix B' b; s; i; 1] in
      get out [b; s; h; 2 * i] = cast (dtype x) (fsub (fmul a c) (fmul b_ sn)) /\
      get out [b; s; h; 2 * i + 1] = cast (dtype x) (fadd (fmul b_ c) (fmul a sn)).
Proof.
  intros Hs Hwf Hfc HB HS HH HD Hbd. eexists. split.
  { by eapply apply_rotary_emb_eq. }
  split; [done|]. split; [done|]. split.
  { red. cbn [data shape]. rewrite !length_fmap, length_indices. cbn. lia. }
  intros b s h i Hb Hs' Hh' Hi. cbn zeta.
  rewrite <- (list_fmap_compose (rot_entry x fc B B' S D2) (cast (dtype x))).
  split.
  - replace (2 * i) with (2 * i + 0) at 1 by lia. rewrite get_pairs by (done || lia). done.
  - rewrite get_pairs by (done || lia). done.
Qed.

Lemma perm_bounds (perm : list nat) n :
  perm ≡ₚ seq 0 n -> length perm = n /\ Forall (fun i => i < n) perm.
Proof.
  intros Hp. split.
  - by rewrite Hp, length_seq.
  - apply Forall_forall. intros i Hi. rewrite Hp in Hi. apply elem_of_seq in Hi. lia.
Qed.

Lemma take_axis2_ok (a : ndarray F) ixs n0 n1 n2 n3 :
  shape a = [n0; n1; n2; n3] -> Forall (fun i => i < n2) ixs ->
  take_axis 2 ixs a
  = Ok (tabulate (dtype a) [n0; n1; length ixs; n3]
          (fun idx => get a (<[2 := ixs !!! (idx !!! 2)]> idx))).
Proof.
  intros Hs Hf. unfold take_axis. rewrite Hs. cbn [lookup list_lookup].
  by rewrite decide_True.
Qed.

(** C10: the rotary applier uses one rotation for every head.  The table
    slice is reshaped with size 1 on the head axis, so gathering the heads of
    the input in the order of any permutation and then rotating gives the
    rotated output with its heads gathered the same way; and two heads that
    carry the same pair at a batch element and position carry the same
    rotated pair. *)
Theorem apply_rotary_emb_same_rotation_for_every_head
    (x fc : ndarray F) (perm : list nat) B B' Bo S Hh D2 :
  shape x = [B; S; Hh; 2 * D2] -> wf x ->
  numel (shape fc) = B' * (S * (D2 * 2)) ->
  0 < B -> 0 < S -> 0 < Hh -> 0 < D2 ->
  bdim B B' = Some Bo ->
  perm ≡ₚ seq 0 Hh ->
  exists xp out outp,
    take_axis 2 perm x = Ok xp /\
    apply_rotary_emb x fc = Ok out /\
    take_axis 2 perm out = Ok outp /\
    apply_rotary_emb xp fc = Ok outp /\
    forall b s h1 h2 i, b < Bo -> s < S -> h1 < Hh -> h2 < Hh -> i < D2 ->
      get x [bfix B b; s; h1; 2 * i] = get x [bfix B b; s; h2; 2 * i] ->
      get x [bfix B b; s; h1; 2 * i + 1] = get x [bfix B b; s; h2; 2 * i + 1] ->
      get out [b; s; h1; 2 * i] = get out [b; s; h2; 2 * i] /\
      get out [b; s; h1; 2 * i + 1] = get out [b; s; h2; 2 * i + 1].
Proof.
  intros Hs Hwf Hfc HB HS HH HD Hbd Hperm.
  destruct (perm_bounds _ _ Hperm) as [Hlen Hall].
  destruct (apply_rotary_emb_spec x fc B B' Bo S Hh D2)
    as (out & Hout & Hdt & Hsh & Hwfo & Hget); try done.
  pose proof (take_axis2_ok x perm _ _ _ _ Hs Hall) as Hxp.
  pose proof (take_axis2_ok out perm _ _ _ _ Hsh Hall) as Houtp.
  rewrite Hlen in Hxp, Houtp.
  set (xp := tabulate _ _ _) in Hxp. set (outp := tabulate _ _ _) in Houtp.
  destruct (apply_rotary_emb_spec xp fc B B' Bo S Hh D2)
    as (out' & Hout' & Hdt' & Hsh' & Hwfo' & Hget'); try done.
  { apply wf_tabulate. }
  assert (Hp : forall h, h < Hh -> perm !!! h < Hh).
  { intros h Hlt. eapply Forall_lookup_total_1 in Hall; [exact Hall|lia]. }
  exists xp, out, outp. split; [done|]. split; [done|]. split; [done|]. split.
  - rewrite Hout'. f_equal.
    apply ndarray_ext.
    { exact Hwfo'. }
    { apply wf_tabulate. }
    { by rewrite Hdt'. }
    { by rewrite Hsh'. }
    rewrite Hsh'. intros idx Hb.
    apply in_bounds4_inv in Hb as (b & s & h & e & -> & Hb & Hs' & Hh' & He).
    apply pair_split in He as (i & j & -> & Hi & Hj).
    unfold outp. rewrite get_tabulate by (solve_bounds; lia).
    cbn [lookup_total list_lookup_total insert list_insert].
    destruct (Hget' b s h i) as [G0 G1]; try done.
    destruct (Hget b s (perm !!! h) i) as [G0' G1']; try done; [by apply Hp|].
    assert (Hx : forall e, e < 2 * D2 ->
              get xp [bfix B b; s; h; e] = get x [bfix B b; s; perm !!! h; e]).
    { intros e He. unfold xp. rewrite get_tabulate; [done|].
      solve_bounds. by eapply bfix_bdim_l. }
    rewrite !Hx in G0, G1 by lia.
    destruct j as [|[|j]]; [| |lia].
    + rewrite Nat.add_0_r, G0, G0'. done.
    + rewrite G1, G1'. done.
  - intros b s h1 h2 i Hb Hs' Hh1 Hh2 Hi E0 E1.
    destruct (Hget b s h1 i) as [G0 G1]; try done.
    destruct (Hget b s h2 i) as [G0' G1']; try done.
    rewrite G0, G1, G0', G1', E0, E1. done.
Qed.
End RotarySpec.

(** ** The rotary round trip *)

Section RoundTrip.
Context {F : Type} `{Scalar F}.
Hypothesis F_ring : ring_theory fzero fone fadd fmul fsub fopp (@eq F).
Hypothesis cast_exact : forall dt (x : F), cast dt x = x.

Add Ring F_ring_inst : F_ring.

Lemma rotate_back_even (a b c s : F) :
  fadd (fmul c c) (fmul s s) = fone ->
  fsub (fmul (fsub (fmul a c) (fmul b s)) c) (fmul (fadd (fmul b c) (fmul a s)) (fopp s)) = a.
Proof.
  intros Hu.
  transitivity (fmul a (fadd (fmul c c) (fmul s s))); [ring|]. rewrite Hu. ring.
Qed.

Lemma rotate_back_odd (a b c s : F) :
  fadd (fmul c c) (fmul s s) = fone ->
  fadd (fmul (fadd (fmul b c) (fmul a s)) c) (fmul (fsub (fmul a c) (fmul b s)) (fopp s)) = b.
Proof.
  intros Hu.
  transitivity (fmul b (fadd (fmul c c) (fmul s s))); [ring|]. rewrite Hu. ring.
Qed.

(** C8: in exact arithmetic (the scalars form a commutative ring and a dtype
    conversion changes nothing), rotating with a table of pairs (c, s) on the
    unit circle and then with the table of the pairs (c, -s), the rotation by
    the opposite angle, returns the original array. *)
Theorem rotary_round_trip (x fc fc' : ndarray F) B B' S Hh D2 :
  shape x = [B; S; Hh; 2 * D2] -> wf x ->
  numel (shape fc) = B' * (S * (D2 * 2)) ->
  numel (shape fc') = B' * (S * (D2 * 2)) ->
  0 < B -> 0 < S -> 0 < Hh -> 0 < D2 ->
  B' = B \/ B' = 1 ->
  (forall b s i, b < B' -> s < S -> i < D2 ->
     let c := get (as_shape [B'; S; D2; 2] fc) [b; s; i; 0] in
     let sn := get (as_shape [B'; S; D2; 2] fc) [b; s; i; 1] in
     fadd (fmul c c) (fmul sn sn) = fone /\
     get (as_shape [B'; S; D2; 2] fc') [b; s; i; 0] = c /\
     get (as_shape [B'; S; D2; 2] fc') [b; s; i; 1] = fopp sn) ->
  exists y, apply_rotary_emb x fc = Ok y /\ apply_rotary_emb y fc' = Ok x.
Proof.
  intros Hs Hwf Hfc Hfc' HB HS HH HD HB' Htab.
  assert (Hbd : bdim B B' = Some B).
  { unfold bdim. repeat case_decide; try done; lia. }
  destruct (apply_rotary_emb_spec x fc B B' B S Hh D2)
    as (y & Hy & Hdt & Hsh & Hwfy & Hget); try done.
  destruct (apply_rotary_emb_spec y fc' B B' B S Hh D2)
    as (z & Hz & Hdtz & Hshz & Hwfz & Hgetz); try done.
  exists y. split; [done|]. rewrite Hz. f_equal.
  apply ndarray_ext.
  { done. }
  { done. }
  { by rewrite Hdtz. }
  { by rewrite Hshz, Hs. }
  rewrite Hshz. intros idx Hb.
  apply in_bounds4_inv in Hb as (b & s & h & e & -> & Hb & Hs' & Hh' & He).
  apply pair_split in He as (i & j & -> & Hi & Hj).
  destruct (Hgetz b s h i) as [Z0 Z1]; try done.
  assert (Hbb : bfix B b = b) by (by apply bfix_lt).
  assert (Hb' : bfix B' b < B') by (by eapply bfix_bdim_r).
  destruct (Hget b s h i) as [Y0 Y1]; try done.
  destruct (Htab (bfix B' b) s i) as (Hu & Hc & Hsn); try done.
  rewrite Hbb in *. rewrite !cast_exact in *.
  rewrite Y0, Y1, Hc, Hsn in Z0, Z1.
  destruct j as [|[|j]]; [| |lia].
  - rewrite Nat.add_0_r, Z0. by apply rotate_back_even.
  - rewrite Z1. by apply rotate_back_odd.
Qed.

End RoundTrip.


(** ** The rotary table *)

(** C6: the code does not do what the claim says.  The builder computes the
    angles and then calls [mx.polar], a name that the array library does not
    have: for the capacity 2, the rotation dimensionality 4 and the base
    10000 (and likewise for the capacity 1 and the dimensionality 2) it
    raises the attribute error and returns no table. *)
Lemma precompute_freqs_cis_raises_at_polar :
  precompute_freqs_cis 2 4 (INR (10 ^ 4)) = Raise AttributeError /\
  precompute_freqs_cis 1 2 (INR (10 ^ 4)) = Raise AttributeError.
Proof. split; reflexivity. Qed.

Lemma getitem_slice1_ok {A} `{Inhabited A} (a : ndarray A) n hi :
  shape a = [n] -> is_ok (getitem a [Slice None hi]) = true.
Proof. intros Hs. unfold getitem. rewrite Hs. reflexivity. Qed.

Section RotaryTable.
Context {F : Type} `{Transcendental F}.

(** X13: for every capacity, every rotation dimensionality and every base, of
    every scalar type, the table builder raises the attribute error of
    [mx.polar]: the exponents, the inverse frequencies and the angles of the
    lines 10 to 12 are always computed, and the call of line 13 always
    fails. *)
Theorem precompute_freqs_cis_raises_on_every_input (seq_len n_elem : nat) (base : F) :
  precompute_freqs_cis seq_len n_elem base = Raise AttributeError.
Proof.
  unfold precompute_freqs_cis.
  pose proof (getitem_slice1_ok (arange 0 n_elem 2) _ (Some (n_elem / 2)) eq_refl) as Hok.
  destruct (getitem (arange 0 n_elem 2) [Slice None (Some (n_elem / 2))]) as [ar|e];
    [reflexivity|discriminate Hok].
Qed.

End RotaryTable.

(** ** The key/value cache *)

Lemma clamp_slice_in n lo hi :
  lo <= hi -> hi <= n -> clamp_slice n (Some lo) (Some hi) = (lo, hi - lo).
Proof. intros. unfold clamp_slice. cbn. f_equal; lia. Qed.

Lemma clamp_slice_full n : clamp_slice n None None = (0, n).
Proof. unfold clamp_slice. cbn. f_equal; lia. Qed.

Lemma clamp_slice_prefix n hi : hi <= n -> clamp_slice n None (Some hi) = (0, hi).
Proof. intros. unfold clamp_slice. cbn. f_equal; lia. Qed.

Lemma offset_before_S {F} (chunks : list (ndarray F * ndarray F)) j kv :
  chunks !! j = Some kv ->
  offset_before chunks (S j) = offset_before chunks j + chunk_len kv.
Proof.
  intros Hj. unfold offset_before. rewrite (take_S_r _ _ _ Hj), fmap_app, sum_list_with_app.
  cbn. lia.
Qed.

Lemma offset_before_cover {F} (chunks : list (ndarray F * ndarray F)) j pos :
  j <= length chunks -> pos < offset_before chunks j ->
  exists m kvm s, m < j /\ chunks !! m = Some kvm /\ s < chunk_len kvm
                  /\ pos = offset_before chunks m + s.
Proof.
  induction j as [|j IH]; intros Hj Hpos.
  { unfold offset_before in Hpos. rewrite take_0 in Hpos. simpl in Hpos. lia. }
  destruct (lookup_lt_is_Some_2 chunks j ltac:(lia)) as [kv Hkv].
  rewrite (offset_before_S _ _ _ Hkv) in Hpos.
  destruct (decide (pos < offset_before chunks j)) as [Hlt|Hge].
  - destruct (IH ltac:(lia) Hlt) as (m & kvm & s & Hm & Hl & Hs & E).
    exists m, kvm, s. repeat split; try done. lia.
  - exists j, kv, (pos - offset_before chunks j). repeat split; try done; lia.
Qed.

Section Cache.
Context {F : Type} `{Scalar F}.

Lemma setitem_window (a val : ndarray F) Bc Sc Hh D Bk Sk bs ss c :
  shape a = [Bc; Sc; 2; Hh; D] -> shape val = [Bk; Sk; Hh; D] ->
  bs + Bk <= Bc -> ss + Sk <= Sc -> c < 2 ->
  setitem a [Slice (Some bs) (Some (bs + Bk)); Slice (Some ss) (Some (ss + Sk)); Index c; Ellipsis] val
  = Ok (tabulate (dtype a) [Bc; Sc; 2; Hh; D] (write_window a val bs ss c)).
Proof.
  intros Ha Hv Hb Hs Hc. unfold setitem. rewrite Ha.
  replace (expand_items (length [Bc; Sc; 2; Hh; D]) _)
    with (Ok [Slice (Some bs) (Some (bs + Bk)); Slice (Some ss) (Some (ss + Sk)); Index c;
              Slice None None; Slice None None]) by reflexivity.
  cbn [mbind result_bind assign_shape].
  rewrite !clamp_slice_full, !clamp_slice_in by lia.
  cbn [mbind result_bind fst snd].
  replace (bs + Bk - bs) with Bk by lia. replace (ss + Sk - ss) with Sk by lia.
  rewrite Hv, decide_True by apply broadcast_shapes_refl.
  f_equal. apply tabulate_ext. intros idx Hi.
  apply in_bounds5_inv in Hi as (b & s & c' & h & d & -> & Hb' & Hs' & Hc' & Hh' & Hd').
  unfold write_window. rewrite Hv.
  cbn [view_of]. rewrite !clamp_slice_full, !clamp_slice_in by lia.
  replace (bs + Bk - bs) with Bk by lia. replace (ss + Sk - ss) with Sk by lia.
  repeat case_decide; try lia; cbn [fmap option_fmap option_map]; try done.
  rewrite bidx4, !bfix_lt, !Nat.sub_0_r by lia. done.
Qed.

Lemma getitem_prefix_window (a : ndarray F) Bc Sc n2 Hh D bs Bk se :
  shape a = [Bc; Sc; n2; Hh; D] -> bs + Bk <= Bc -> se <= Sc ->
  getitem a [Slice (Some bs) (Some (bs + Bk)); Slice None (Some se); Ellipsis]
  = Ok (tabulate (dtype a) [Bk; se; n2; Hh; D] (prefix_entry a bs)).
Proof.
  intros Ha Hb Hs. unfold getitem. rewrite Ha.
  replace (expand_items (length [Bc; Sc; n2; Hh; D]) _)
    with (Ok [Slice (Some bs) (Some (bs + Bk)); Slice None (Some se);
              Slice None None; Slice None None; Slice None None]) by reflexivity.
  cbn [mbind result_bind view_shape].
  rewrite !clamp_slice_full, !clamp_slice_in, !clamp_slice_prefix by lia.
  cbn [mbind result_bind fst snd].
  replace (bs + Bk - bs) with Bk by lia.
  f_equal. apply tabulate_ext. intros idx Hi.
  apply in_bounds5_inv in Hi as (b & s & c & h & d & -> & Hb' & Hs' & Hc' & Hh' & Hd').
  cbn [view_index prefix_entry].
  rewrite !clamp_slice_full, !clamp_slice_in, !clamp_slice_prefix by lia. done.
Qed.

Lemma update_kv_cache_ok (k v : ndarray F) l ip cache Bc Sc Hh D Bk Sk :
  key_value_memory_dict ip !! l = Some cache ->
  shape cache = [Bc; Sc; 2; Hh; D] ->
  shape k = [Bk; Sk; Hh; D] -> shape v = [Bk; Sk; Hh; D] ->
  batch_size_offset ip + Bk <= Bc -> seqlen_offset ip + Sk <= Sc ->
  let bo := batch_size_offset ip in
  let so := seqlen_offset ip in
  let c1 := tabulate (dtype cache) [Bc; Sc; 2; Hh; D] (write_window cache k bo so 0) in
  let c2 := tabulate (dtype cache) [Bc; Sc; 2; Hh; D] (write_window c1 v bo so 1) in
  _update_kv_cache k v l ip
  = (Ok (tabulate (dtype cache) [Bk; so + Sk; 2; Hh; D] (prefix_entry c2 bo)),
     set_cache l c2 ip).
Proof.
  intros Hl Hc Hk Hv Hb Hs bo so c1 c2. unfold _update_kv_cache.
  unfold mbind, M_bind, get_params, assert_, lift, store_cache, shape_at.
  rewrite Hl. cbn [of_option]. rewrite Hk. cbn [of_option lookup list_lookup].
  rewrite bool_decide_true by done. rewrite Hc. cbn [of_option lookup list_lookup].
  rewrite !bool_decide_true by (done || lia).
  rewrite (setitem_window cache k Bc Sc Hh D Bk Sk) by (done || lia).
  fold c1.
  rewrite (setitem_window c1 v Bc Sc Hh D Bk Sk) by (done || lia).
  cbn [dtype tabulate]. fold c2.
  rewrite (getitem_prefix_window c2 Bc Sc 2 Hh D) by (done || lia).
  f_equal. unfold set_cache. cbn. f_equal. apply insert_insert_eq.
Qed.

Lemma get_written (cache k v : ndarray F) Bc Sc Hh D Bk Sk bo so b s c h d :
  shape k = [Bk; Sk; Hh; D] -> shape v = [Bk; Sk; Hh; D] ->
  b < Bc -> s < Sc -> c < 2 -> h < Hh -> d < D ->
  let c1 := tabulate (dtype cache) [Bc; Sc; 2; Hh; D] (write_window cache k bo so 0) in
  let c2 := tabulate (dtype cache) [Bc; Sc; 2; Hh; D] (write_window c1 v bo so 1) in
  get c2 [b; s; c; h; d]
  = if decide ((bo <= b < bo + Bk) /\ (so <= s < so + Sk))
    then cast (dtype cache) (get (if decide (c = 0) then k else v) [b - bo; s - so; h; d])
    else get cache [b; s; c; h; d].
Proof.
  intros Hk Hv Hb Hs Hc Hh' Hd c1 c2. unfold c2.
  rewrite get_tabulate by solve_bounds. unfold write_window at 1. rewrite Hv.
  unfold c1. cbn [dtype tabulate].
  destruct (decide (c = 0)) as [->|Hc0].
  - rewrite decide_False by lia. rewrite get_tabulate by solve_bounds.
    unfold write_window. rewrite Hk. repeat case_decide; try done; lia.
  - assert (c = 1) as -> by lia. case_decide as Hw.
    + rewrite decide_True by lia. done.
    + rewrite decide_False by lia. rewrite get_tabulate by solve_bounds.
      unfold write_window. rewrite Hk. rewrite decide_False by lia. done.
Qed.

(** C1: a cache update on a layer whose buffer has the shape of an allocated
    buffer, (batch_size, max_seqlen, 2, num_kv_heads, head_dim), within the
    batch and sequence capacity, succeeds; it writes k (converted to the
    buffer's dtype) at axis-2 index 0 and v at axis-2 index 1 of the addressed
    window, leaves every other entry as it was, and returns the prefix of the
    addressed batch window: every sequence position from 0 up to
    seqlen_offset + seq_chunk, as it stands in the buffer after the write. *)
Theorem update_kv_cache_writes_window_returns_prefix
    (blk : TransformerBlock F) (junk : list nat -> F) (batch_size max_seqlen : nat) (dt : Dtype)
    (k v : ndarray F) (l : nat) (ip : InferenceParams F) (cache : ndarray F) (Bk Sk : nat) :
  let Hh := block_num_heads_kv blk in
  let D := block_head_dim blk in
  let bo := batch_size_offset ip in
  let so := seqlen_offset ip in
  key_value_memory_dict ip !! l = Some cache ->
  shape cache = shape (TransformerBlock_allocate_inference_cache blk junk batch_size max_seqlen dt) ->
  shape k = [Bk; Sk; Hh; D] -> shape v = [Bk; Sk; Hh; D] ->
  bo + Bk <= batch_size -> so + Sk <= max_seqlen ->
  exists prefix cache',
    _update_kv_cache k v l ip = (Ok prefix, set_cache l cache' ip) /\
    shape cache' = [batch_size; max_seqlen; 2; Hh; D] /\
    dtype cache' = dtype cache /\
    (forall b s h d, b < Bk -> s < Sk -> h < Hh -> d < D ->
       get cache' [bo + b; so + s; 0; h; d] = cast (dtype cache) (get k [b; s; h; d]) /\
       get cache' [bo + b; so + s; 1; h; d] = cast (dtype cache) (get v [b; s; h; d])) /\
    (forall b s c h d, b < batch_size -> s < max_seqlen -> c < 2 -> h < Hh -> d < D ->
       ~ ((bo <= b < bo + Bk) /\ (so <= s < so + Sk)) ->
       get cache' [b; s; c; h; d] = get cache [b; s; c; h; d]) /\
    shape prefix = [Bk; so + Sk; 2; Hh; D] /\
    dtype prefix = dtype cache /\
    (forall b s c h d, b < Bk -> s < so + Sk -> c < 2 -> h < Hh -> d < D ->
       get prefix [b; s; c; h; d] = get cache' [bo + b; s; c; h; d]).
Proof.
  intros Hh D bo so Hl Hc Hk Hv Hb Hs. cbn in Hc.
  eexists _, _. split.
  { by eapply (update_kv_cache_ok k v l ip cache batch_size max_seqlen Hh D Bk Sk). }
  split; [done|]. split; [done|]. split; [|split; [|split; [done|split; [done|]]]].
  - intros b s h d Hb' Hs' Hh' Hd'.
    rewrite !(get_written cache k v batch_size max_seqlen Hh D Bk Sk) by (done || lia).
    rewrite !decide_True by (fold bo so; lia). cbn [decide].
    fold bo so. replace (bo + b - bo) with b by lia. replace (so + s - so) with s by lia.
    done.
  - intros b s c h d Hb' Hs' Hc' Hh' Hd' Hout.
    rewrite (get_written cache k v batch_size max_seqlen Hh D Bk Sk) by (done || lia).
    by rewrite decide_False.
  - intros b s c h d Hb' Hs' Hc' Hh' Hd'.
    rewrite get_tabulate by solve_bounds. done.
Qed.

(** C3: for keys and values of the declared shape, the cache update fails
    exactly when the layer has no buffer in [key_value_memory_dict], or
    batch_size_offset + batch_chunk exceeds the batch capacity, or
    seqlen_offset + seq_chunk exceeds the sequence capacity; a failing call
    raises the assertion error and leaves the state, and so the buffer, as it
    was. *)
Theorem update_kv_cache_fails_iff
    (k v : ndarray F) (l : nat) (ip : InferenceParams F) (Bc Sc Hh D Bk Sk : nat) :
  shape k = [Bk; Sk; Hh; D] -> shape v = [Bk; Sk; Hh; D] ->
  (forall cache, key_value_memory_dict ip !! l = Some cache -> shape cache = [Bc; Sc; 2; Hh; D]) ->
  let r := _update_kv_cache k v l ip in
  (is_ok r.1 = false <->
     key_value_memory_dict ip !! l = None \/
     Bc < batch_size_offset ip + Bk \/
     Sc < seqlen_offset ip + Sk) /\
  (is_ok r.1 = false -> r.1 = Raise AssertionError /\ r.2 = ip).
Proof.
  intros Hk Hv Hc r.
  destruct (key_value_memory_dict ip !! l) as [cache|] eqn:Hl.
  - specialize (Hc cache eq_refl).
    destruct (decide (batch_size_offset ip + Bk <= Bc)) as [Hb|Hb].
    + destruct (decide (seqlen_offset ip + Sk <= Sc)) as [Hs|Hs].
      * unfold r.
        rewrite (update_kv_cache_ok k v l ip cache Bc Sc Hh D Bk Sk) by done.
        cbn. split; [|done]. split; [done|]. intros [?|[?|?]]; [done|lia|lia].
      * assert (Hr : r = (Raise AssertionError, ip)).
        { unfold r, _update_kv_cache.
          unfold mbind, M_bind, get_params, assert_, lift, store_cache, shape_at.
          rewrite Hl. cbn [of_option]. rewrite Hk. cbn [of_option lookup list_lookup].
          rewrite bool_decide_true by done. rewrite Hc. cbn [of_option lookup list_lookup].
          rewrite bool_decide_true by done. by rewrite bool_decide_false by done. }
        rewrite Hr. cbn. split; [|done]. split; [|done]. intros _. right. right. lia.
    + assert (Hr : r = (Raise AssertionError, ip)).
      { unfold r, _update_kv_cache.
        unfold mbind, M_bind, get_params, assert_, lift, store_cache, shape_at.
        rewrite Hl. cbn [of_option]. rewrite Hk. cbn [of_option lookup list_lookup].
        rewrite bool_decide_true by done. rewrite Hc. cbn [of_option lookup list_lookup].
        by rewrite bool_decide_false by done. }
      rewrite Hr. cbn. split; [|done]. split; [|done]. intros _. right. left. lia.
  - assert (Hr : r = (Raise AssertionError, ip)).
    { unfold r, _update_kv_cache.
      unfold mbind, M_bind, get_params, assert_, lift, store_cache, shape_at.
      rewrite Hl. by rewrite bool_decide_false by (by intros [? ?]). }
    rewrite Hr. cbn. split; [|done]. split; [|done]. intros _. by left.
Qed.

Lemma write_chunks_spec l Bc Sc Hh D (chunks : list (ndarray F * ndarray F)) :
  forall (ip : InferenceParams F) (cache : ndarray F),
  key_value_memory_dict ip !! l = Some cache ->
  shape cache = [Bc; Sc; 2; Hh; D] ->
  Forall (chunk_ok ip Bc Hh D) chunks ->
  seqlen_offset ip + offset_before chunks (length chunks) <= Sc ->
  exists prefixes ip',
    write_chunks l chunks ip = (Ok prefixes, ip') /\
    length prefixes = length chunks /\
    forall j kv p, chunks !! j = Some kv -> prefixes !! j = Some p ->
      shape p = [chunk_batch kv; seqlen_offset ip + offset_before chunks (S j); 2; Hh; D] /\
      (forall b s c h d, b < chunk_batch kv -> s < seqlen_offset ip -> c < 2 -> h < Hh -> d < D ->
         get p [b; s; c; h; d] = get cache [batch_size_offset ip + b; s; c; h; d]) /\
      (forall m kvm, m <= j -> chunks !! m = Some kvm ->
         forall b s h d, b < chunk_batch kv -> b < chunk_batch kvm -> s < chunk_len kvm ->
           h < Hh -> d < D ->
           get p [b; seqlen_offset ip + offset_before chunks m + s; 0; h; d]
             = cast (dtype cache) (get kvm.1 [b; s; h; d]) /\
           get p [b; seqlen_offset ip + offset_before chunks m + s; 1; h; d]
             = cast (dtype cache) (get kvm.2 [b; s; h; d])).
Proof.
  induction chunks as [|[k v] rest IH]; intros ip cache Hl Hc Hok Hcap.
  { exists [], ip. split; [done|]. split; [done|]. intros j kv p Hj. done. }
  apply Forall_cons in Hok as [(Bk & Sk & Hk & Hv & Hb) Hok]. cbn [fst snd] in Hk, Hv.
  assert (Hlen : chunk_len (k, v) = Sk) by (unfold chunk_len; cbn [fst]; by rewrite Hk).
  assert (Hbat : chunk_batch (k, v) = Bk) by (unfold chunk_batch; cbn [fst]; by rewrite Hk).
  assert (Hoff : forall m, offset_before ((k, v) :: rest) (S m) = Sk + offset_before rest m).
  { intros m. unfold offset_before. cbn [take fmap list_fmap sum_list sum_list_with].
    by rewrite Hlen. }
  assert (Hs : seqlen_offset ip + Sk <= Sc).
  { cbn [length] in Hcap. rewrite Hoff in Hcap. lia. }
  pose proof (update_kv_cache_ok k v l ip cache Bc Sc Hh D Bk Sk Hl Hc Hk Hv Hb Hs) as Hup.
  cbn zeta in Hup.
  set (c1 := tabulate (dtype cache) [Bc; Sc; 2; Hh; D]
               (write_window cache k (batch_size_offset ip) (seqlen_offset ip) 0)) in *.
  set (c2 := tabulate (dtype cache) [Bc; Sc; 2; Hh; D]
               (write_window c1 v (batch_size_offset ip) (seqlen_offset ip) 1)) in *.
  set (p0 := tabulate (dtype cache) [Bk; seqlen_offset ip + Sk; 2; Hh; D]
               (prefix_entry c2 (batch_size_offset ip))) in *.
  set (ip1 := {| batch_size_offset := batch_size_offset ip;
                 seqlen_offset := seqlen_offset ip + Sk;
                 lengths_per_sample := lengths_per_sample ip;
                 key_value_memory_dict := <[l := c2]> (key_value_memory_dict ip) |}).
  destruct (IH ip1 c2) as (ps & ip' & Hrun & Hlenps & Hps).
  { cbn. apply lookup_insert_eq. }
  { done. }
  { eapply Forall_impl; [exact Hok|]. intros kv (B' & S' & ? & ? & ?). by exists B', S'. }
  { cbn [seqlen_offset ip1]. cbn [length] in Hcap. rewrite Hoff in Hcap. lia. }
  assert (Hc2 : forall b s c h d, b < Bc -> s < Sc -> c < 2 -> h < Hh -> d < D ->
            get c2 [b; s; c; h; d]
            = if decide ((batch_size_offset ip <= b < batch_size_offset ip + Bk)
                         /\ (seqlen_offset ip <= s < seqlen_offset ip + Sk))
              then cast (dtype cache)
                     (get (if decide (c = 0) then k else v)
                        [b - batch_size_offset ip; s - seqlen_offset ip; h; d])
              else get cache [b; s; c; h; d]).
  { intros. by apply (get_written cache k v Bc Sc Hh D Bk Sk). }
  exists (p0 :: ps), ip'. split.
  { cbn [write_chunks]. unfold mbind at 1, M_bind at 1. rewrite Hup.
    unfold mbind, M_bind, lift, shape_at, advance_seqlen, set_cache.
    rewrite Hk. cbn [of_option lookup list_lookup].
    cbn [batch_size_offset seqlen_offset lengths_per_sample key_value_memory_dict].
    fold ip1. rewrite Hrun. done. }
  split; [cbn; by rewrite Hlenps|].
  intros j kv p Hj Hp. destruct j as [|j].
  - cbn in Hj, Hp. assert (kv = (k, v)) as -> by congruence.
    assert (p = p0) as -> by congruence. rewrite Hbat.
    split; [|split].
    + rewrite (Hoff 0). unfold offset_before. cbn. by rewrite Nat.add_0_r.
    + intros b s c h d Hb' Hs' Hc' Hh' Hd'. unfold p0.
      rewrite get_tabulate by (solve_bounds; lia). cbn [prefix_entry].
      rewrite Hc2 by lia. by rewrite decide_False by lia.
    + intros m kvm Hm Hkvm. assert (m = 0) as -> by lia. cbn in Hkvm.
      assert (kvm = (k, v)) as -> by congruence.
      intros b s h d Hb' _ Hs' Hh' Hd'. rewrite Hlen in Hs'.
      unfold offset_before. cbn [take fmap list_fmap sum_list sum_list_with].
      rewrite Nat.add_0_r. unfold p0.
      rewrite !get_tabulate by (solve_bounds; lia). cbn [prefix_entry].
      rewrite !Hc2 by lia. rewrite !decide_True by lia. cbn [decide fst snd].
      replace (batch_size_offset ip + b - batch_size_offset ip) with b by lia.
      replace (seqlen_offset ip + s - seqlen_offset ip) with s by lia. done.
  - cbn in Hj, Hp. destruct (Hps j kv p Hj Hp) as (Hshape & Hold & Hnew).
    cbn [seqlen_offset batch_size_offset ip1] in Hshape, Hold, Hnew.
    assert (Hkv : chunk_batch kv + batch_size_offset ip <= Bc).
    { eapply Forall_lookup_1 in Hok as (B' & S' & Hk' & _ & Hb''); [|exact Hj].
      unfold chunk_batch. rewrite Hk'. cbn. lia. }
    split; [|split].
    + rewrite Hshape, Hoff. do 2 f_equal. lia.
    + intros b s c h d Hb' Hs' Hc' Hh' Hd'.
      rewrite Hold by lia. rewrite Hc2 by lia. by rewrite decide_False by lia.
    + intros m kvm Hm Hkvm b s h d Hb' Hbm Hs' Hh' Hd'. destruct m as [|m].
      * cbn in Hkvm. assert (kvm = (k, v)) as -> by congruence.
        rewrite Hlen in Hs'. rewrite Hbat in Hbm.
        unfold offset_before. cbn [take fmap list_fmap sum_list sum_list_with].
        rewrite Nat.add_0_r. rewrite !Hold by lia.
        rewrite !Hc2 by lia. rewrite !decide_True by lia. cbn [decide fst snd].
        replace (batch_size_offset ip + b - batch_size_offset ip) with b by lia.
        replace (seqlen_offset ip + s - seqlen_offset ip) with s by lia. done.
      * cbn in Hkvm. rewrite Hoff.
        destruct (Hnew m kvm ltac:(lia) Hkvm b s h d) as [E0 E1]; try done.
        replace (seqlen_offset ip + (Sk + offset_before rest m) + s)
          with (seqlen_offset ip + Sk + offset_before rest m + s) by lia.
        done.
Qed.

(** C2: a sequence of incremental writes to one layer that starts at sequence
    offset 0 and fits the capacity succeeds; the prefix returned by the j-th
    write has sequence length equal to the cumulative offset after that write;
    every position before the offset at which the j-th write began was written
    by an earlier write m, and there the prefix holds the keys and values that
    write stored. *)
Theorem incremental_writes_return_growing_prefix
    l Bc Sc Hh D (chunks : list (ndarray F * ndarray F)) (ip : InferenceParams F)
    (cache : ndarray F) :
  key_value_memory_dict ip !! l = Some cache ->
  shape cache = [Bc; Sc; 2; Hh; D] ->
  seqlen_offset ip = 0 ->
  Forall (chunk_ok ip Bc Hh D) chunks ->
  offset_before chunks (length chunks) <= Sc ->
  exists prefixes ip',
    write_chunks l chunks ip = (Ok prefixes, ip') /\
    length prefixes = length chunks /\
    forall j kv p, chunks !! j = Some kv -> prefixes !! j = Some p ->
      shape p = [chunk_batch kv; offset_before chunks (S j); 2; Hh; D] /\
      (forall pos, pos < offset_before chunks j ->
         exists m kvm s, m < j /\ chunks !! m = Some kvm /\ s < chunk_len kvm
                         /\ pos = offset_before chunks m + s) /\
      (forall m kvm, m < j -> chunks !! m = Some kvm ->
         forall b s h d, b < chunk_batch kv -> b < chunk_batch kvm -> s < chunk_len kvm ->
           h < Hh -> d < D ->
           offset_before chunks m + s < offset_before chunks j /\
           get p [b; offset_before chunks m + s; 0; h; d]
             = cast (dtype cache) (get kvm.1 [b; s; h; d]) /\
           get p [b; offset_before chunks m + s; 1; h; d]
             = cast (dtype cache) (get kvm.2 [b; s; h; d])).
Proof.
  intros Hl Hc Hz Hok Hcap.
  destruct (write_chunks_spec l Bc Sc Hh D chunks ip cache) as (ps & ip' & Hrun & Hlen & Hps);
    try done; [by rewrite Hz|].
  exists ps, ip'. split; [done|]. split; [done|].
  intros j kv p Hj Hp. destruct (Hps j kv p Hj Hp) as (Hsh & _ & Hnew).
  rewrite Hz in Hsh, Hnew. cbn [Nat.add] in Hsh, Hnew. split; [done|].
  split.
  { intros pos Hpos. apply offset_before_cover; [|done].
    apply lookup_lt_Some in Hj. lia. }
  intros m kvm Hm Hkvm b s h d Hb Hbm Hs Hh' Hd.
  split; [|by apply Hnew; try lia].
  unfold offset_before.
  rewrite <- (take_drop m (take j chunks)). rewrite take_take, Nat.min_l by lia.
  rewrite fmap_app, sum_list_with_app.
  assert (Hd' : drop m (take j chunks) !! 0 = Some kvm).
  { rewrite lookup_drop, Nat.add_0_r, lookup_take_lt by lia. done. }
  destruct (drop m (take j chunks)) as [|x r]; [done|]. cbn in Hd'. simplify_eq.
  cbn. lia.
Qed.
End Cache.

(** ** Linear layers and lifted results *)

Section Ops.
Context {F : Type} `{Scalar F}.


Lemma lift_bind {A B} (r : result A) (f : A -> M F B) (ip : InferenceParams F) :
  (lift r ≫= f) ip = match r with Ok a => f a ip | Raise e => (Raise e, ip) end.
Proof. by destruct r. Qed.

End Ops.

(** ** The attention layer *)

Section AttentionRaises.
Context {F : Type} `{Scalar F}.

Lemma length_split_at (a : ndarray F) n prev (indices : list nat) :
  length (split_at a n prev indices) = S (length indices).
Proof.
  revert prev. induction indices as [|i rest IH]; intros prev; [done|].
  cbn [split_at length]. by rewrite IH.
Qed.

Lemma unpack3_four {A} (l : list A) : length l = 4 -> unpack3 l = Raise ValueError.
Proof. by destruct l as [|a [|b [|c [|d [|e l]]]]]. Qed.

Lemma unpack3_raises {A} (l : list A) e : unpack3 l = Raise e -> e = ValueError.
Proof. destruct l as [|a [|b [|c [|d l]]]]; cbn; congruence. Qed.

Lemma linear_raises (W x : ndarray F) e : linear W x = Raise e -> e = ValueError.
Proof.
  unfold linear. destruct (shape W) as [|o [|i [|? ?]]]; try congruence.
  destruct (last (shape x)); [|congruence]. case_decide; congruence.
Qed.

(** X17: for every attention layer, every input and every state, the forward
    pass of the attention layer raises the value error and leaves the state
    unchanged: whenever the shape of [x] unpacks and the projection succeeds,
    the split of line 121 has four pieces and their unpacking into q, k and v
    fails, so the rotary embedding, the cache update and the attention are
    never reached. *)
Theorem Attention_forward_raises_on_every_input
    (self : Attention F) (x fc : ndarray F) (ip : InferenceParams F) :
  Attention_forward self x fc ip = (Raise ValueError, ip).
Proof.
  unfold Attention_forward. rewrite lift_bind.
  destruct (unpack3 (shape x)) as [[[b s] d]|e] eqn:Hu.
  2: { by rewrite (unpack3_raises _ _ Hu). }
  rewrite lift_bind.
  destruct (linear (in_proj self) x) as [qkv|e] eqn:Hl.
  2: { by rewrite (linear_raises _ _ _ Hl). }
  unfold lift, split_indices. destruct (last (shape qkv)) as [n|]; [|done].
  cbn [mbind result_bind]. by rewrite unpack3_four by (by rewrite length_split_at).
Qed.

End AttentionRaises.

(** C4: the code does not do what the claim says.  On an attention layer
    with the attributes its constructor sets, for a prefill chunk of two
    positions and for a chunk of one position alike, the forward pass raises
    the value error at the unpacking of line 121 and leaves the state as it
    was: the attention call of line 135, with or without the causal mask, is
    never made. *)
Lemma attention_forward_raises_before_attention_call :
  shape Sample.x4 = [1; 2; 4] /\
  Attention_forward Sample.attn4 Sample.x4 Example.fc Example.ip
  = (Raise ValueError, Example.ip) /\
  shape Sample.x4_step = [1; 1; 4] /\
  Attention_forward Sample.attn4 Sample.x4_step Example.fc Example.ip
  = (Raise ValueError, Example.ip).
Proof. repeat split; vm_compute; reflexivity. Qed.

(** C9: the code does not do what the claim says.  On hidden states of shape
    (1, 2, 4), with two query heads and one key/value head of dimension 2,
    the projection has a last axis of length 8 and the split of line 121, at
    the cut positions 4, 2 and 2, has four pieces; the unpacking into q, k
    and v raises the value error, and the buffer of the layer is afterwards
    the allocated buffer, unwritten: neither the rotary embedding of lines
    127 and 128 nor the cache update of line 130 takes place. *)
Lemma attention_forward_raises_before_rotary_and_cache :
  exists qkv pieces,
    linear (in_proj Sample.attn4) Sample.x4 = Ok qkv /\
    shape qkv = [1; 2; 8] /\
    split_indices [4; 2; 2] qkv = Ok pieces /\
    length pieces = 4 /\
    (Attention_forward Sample.attn4 Sample.x4 Example.fc Example.ip).1 = Raise ValueError /\
    key_value_memory_dict (Attention_forward Sample.attn4 Sample.x4 Example.fc Example.ip).2 !! 0
    = Some Example.cache.
Proof.
  eexists _, _. split; [vm_compute; reflexivity|]. split; [reflexivity|].
  split; [vm_compute; reflexivity|]. repeat split; vm_compute; reflexivity.
Qed.

(** ** The backbone *)

(** C5: the code does not do what the claim says.  On hidden states of shape
    (1, 2, 4), with the rotary table set and the lengths [0], the forward
    pass of the backbone raises the attribute error of [hidden_states.device]
    in line 73 and leaves the state as it was: no position is computed, no
    row of the table is gathered, no block and no normalisation runs. *)
Lemma backbone_forward_raises_at_device :
  freqs_cis Sample.backbone4 = Some Example.table /\
  shape Sample.x4 = [1; 2; 4] /\
  MLXZonosBackbone_forward Sample.backbone4 Sample.x4 Example.ip
  = (Raise AttributeError, Example.ip).
Proof. repeat split. Qed.

(** X19: for every backbone, every input and every state, the forward pass of
    the backbone raises and leaves the state unchanged: the index error of
    [hidden_states.shape[1]] when the hidden states have fewer than two axes,
    and otherwise the attribute error of [hidden_states.device], whether or
    not the rotary table is set. *)
Theorem MLXZonosBackbone_forward_raises_on_every_input {F}
    (self : MLXZonosBackbone F) (hidden_states : ndarray F) (ip : InferenceParams F) :
  MLXZonosBackbone_forward self hidden_states ip
  = (Raise (match shape hidden_states !! 1 with
            | Some _ => AttributeError
            | None => IndexError
            end), ip).
Proof.
  unfold MLXZonosBackbone_forward, shape_at, lift.
  destruct (shape hidden_states !! 1) as [n1|]; reflexivity.
Qed.

Lemma Z_ring : ring_theory (fzero : Z) fone fadd fmul fsub fopp eq.
Proof. constructor; intros; cbn; unfold fopp; cbn; lia. Qed.

(** C7, as stated, fails: for an input of rank 5 whose last axis has the even
    length 2 and a table slice with the leading axes of the input followed by
    (1, 2), the applier returns an array whose last axis has length 8. *)
Lemma apply_rotary_emb_rank5_counterexample :
  last (shape Example.x5) = Some 2 /\
  apply_rotary_emb Example.x5 Example.fc5
  = Ok (NDArray bfloat16 [1; 1; 1; 8] [-2; 1; 1; 2; -4; 3; 3; 4]%Z) /\
  ~ (exists out, apply_rotary_emb Example.x5 Example.fc5 = Ok out /\ last (shape out) = Some 2).
Proof.
  split; [reflexivity|]. split; [vm_compute; reflexivity|].
  intros (out & Hout & Hlast). vm_compute in Hout. injection Hout as <-. discriminate.
Qed.

(** ** The rotary applier: the amended claim *)

Section Amended.
Context {F : Type} `{Scalar F}.
(** C7 (amended): for every non-empty input of shape (batch, seq, heads, d)
    with d = 2 D2 and every table slice of B' seq D2 2 entries whose batch size
    B' broadcasts with batch, the applier succeeds; the result has the dtype of
    the input and the d-length last axis, and its pair i at a batch element,
    position and head is (a c - b s, b c + a s) converted to the input's
    dtype, where (a, b) is pair i of the input upcast to float32 and (c, s)
    the table entry at the same position and frequency index. *)
Theorem apply_rotary_emb_rotates_pairs (x fc : ndarray F) B B' Bo S Hh D2 :
  shape x = [B; S; Hh; 2 * D2] -> wf x ->
  numel (shape fc) = B' * (S * (D2 * 2)) ->
  0 < B -> 0 < S -> 0 < Hh -> 0 < D2 ->
  bdim B B' = Some Bo ->
  exists out,
    apply_rotary_emb x fc = Ok out /\
    dtype out = dtype x /\
    shape out = [Bo; S; Hh; 2 * D2] /\
    forall b s h i, b < Bo -> s < S -> h < Hh -> i < D2 ->
      let a := cast float32 (get x [bfix B b; s; h; 2 * i]) in
      let b_ := cast float32 (get x [bfix B b; s; h; 2 * i + 1]) in
      let c := get (as_shape [B'; S; D2; 2] fc) [bfix B' b; s; i; 0] in
      let sn := get (as_shape [B'; S; D2; 2] fc) [bfix B' b; s; i; 1] in
      get out [b; s; h; 2 * i] = cast (dtype x) (fsub (fmul a c) (fmul b_ sn)) /\
      get out [b; s; h; 2 * i + 1] = cast (dtype x) (fadd (fmul b_ c) (fmul a sn)).
Proof.
  intros Hs Hwf Hfc HB HS HH HD Hbd.
  destruct (apply_rotary_emb_spec x fc B B' Bo S Hh D2) as (out & Ho & Hd & Hsh & _ & Hg);
    try done.
  exists out. split; [exact Ho|]. split; [exact Hd|]. split; [exact Hsh|]. exact Hg.
Qed.
End Amended.

(** ** Instances of the theorems on the integer model *)

Lemma apply_rotary_emb_rotates_pairs_witness :
  exists out,
    apply_rotary_emb Example.heads Example.fc = Ok out /\
    shape out = [1; 2; 2; 2] /\
    get out [0; 0; 0; 0] = (-2)%Z /\ get out [0; 0; 0; 1] = 1%Z.
Proof.
  destruct (apply_rotary_emb_rotates_pairs Example.heads Example.fc 1 1 1 2 2 1)
    as (out & Ho & _ & Hsh & Hg);
    [reflexivity|reflexivity|reflexivity|lia|lia|lia|lia|reflexivity|].
  exists out. split; [exact Ho|]. split; [exact Hsh|].
  destruct (Hg 0 0 0 0) as [E0 E1]; [lia|lia|lia|lia|].
  split; [exact (eq_trans E0 eq_refl)|exact (eq_trans E1 eq_refl)].
Defined.

Lemma apply_rotary_emb_same_rotation_for_every_head_witness :
  exists xp out outp,
    take_axis 2 [1; 0] Example.heads = Ok xp /\
    apply_rotary_emb Example.heads Example.fc = Ok out /\
    take_axis 2 [1; 0] out = Ok outp /\
    apply_rotary_emb xp Example.fc = Ok outp.
Proof.
  destruct (apply_rotary_emb_same_rotation_for_every_head
              Example.heads Example.fc [1; 0] 1 1 1 2 2 1)
    as (xp & out & outp & H1 & H2 & H3 & H4 & _);
    [reflexivity|reflexivity|reflexivity|lia|lia|lia|lia|reflexivity|exact (perm_swap 0 1 [])|].
  exists xp, out, outp. repeat split; assumption.
Defined.

Lemma rotary_round_trip_witness :
  exists y, apply_rotary_emb Example.heads Example.fc = Ok y /\
            apply_rotary_emb y Example.fc_neg = Ok Example.heads.
Proof.
  apply (rotary_round_trip Z_ring (fun _ _ => eq_refl)
           Example.heads Example.fc Example.fc_neg 1 1 2 2 1);
    [reflexivity|reflexivity|reflexivity|reflexivity|lia|lia|lia|lia|by left|].
  intros b s i Hb Hs Hi.
  assert (b = 0) as -> by lia. assert (i = 0) as -> by lia.
  destruct s as [|[|s]]; [| |lia]; repeat split.
Defined.

Lemma update_kv_cache_writes_window_returns_prefix_witness :
  exists prefix cache',
    _update_kv_cache Example.k2 Example.v2 0 (with_seqlen_offset 1 Example.ip)
      = (Ok prefix, set_cache 0 cache' (with_seqlen_offset 1 Example.ip)) /\
    shape prefix = [1; 2; 2; 1; 2] /\
    get cache' [0; 1; 0; 0; 1] = 6%Z /\ get cache' [0; 1; 1; 0; 0] = 7%Z /\
    get cache' [0; 0; 0; 0; 1] = 0%Z.
Proof.
  destruct (update_kv_cache_writes_window_returns_prefix Example.block (fun _ => 0%Z) 1 2
              bfloat16 Example.k2 Example.v2 0 (with_seqlen_offset 1 Example.ip)
              Example.cache 1 1)
    as (prefix & cache' & Hup & _ & _ & Hw & Hrest & Hps & _);
    [reflexivity|reflexivity|reflexivity|reflexivity|cbn; lia|cbn; lia|].
  exists prefix, cache'. split; [exact Hup|]. split; [exact Hps|].
  destruct (Hw 0 0 0 1) as [E0 _]; [lia|lia|cbn; lia|cbn; lia|].
  destruct (Hw 0 0 0 0) as [_ E1]; [lia|lia|cbn; lia|cbn; lia|].
  split; [exact (eq_trans E0 eq_refl)|]. split; [exact (eq_trans E1 eq_refl)|].
  refine (eq_trans (Hrest 0 0 0 0 1 _ _ _ _ _ _) eq_refl); cbn; lia.
Defined.

Lemma incremental_writes_return_growing_prefix_witness :
  exists prefixes ip',
    write_chunks 0 [(Example.k1, Example.v1); (Example.k2, Example.v2)] Example.ip
      = (Ok prefixes, ip') /\
    length prefixes = 2.
Proof.
  destruct (incremental_writes_return_growing_prefix 0 1 2 1 2
              [(Example.k1, Example.v1); (Example.k2, Example.v2)] Example.ip Example.cache)
    as (ps & ip' & Hrun & Hlen & _);
    [reflexivity|reflexivity|reflexivity| |vm_compute; lia|].
  { repeat constructor; exists 1, 1; repeat split; cbn; lia. }
  exists ps, ip'. split; [exact Hrun|exact Hlen].
Defined.

Lemma update_kv_cache_fails_iff_witness :
  (_update_kv_cache Sample.k_pair Sample.v_pair 0 (with_seqlen_offset 1 Example.ip)).1
  = Raise AssertionError /\
  (_update_kv_cache Sample.k_pair Sample.v_pair 0 (with_seqlen_offset 1 Example.ip)).2
  = with_seqlen_offset 1 Example.ip.
Proof.
  destruct (update_kv_cache_fails_iff Sample.k_pair Sample.v_pair 0
              (with_seqlen_offset 1 Example.ip) 1 2 1 2 1 2 eq_refl eq_refl) as [Hiff Hfail].
  { intros c Hc. change (Some Example.cache = Some c) in Hc. injection Hc as <-. reflexivity. }
  apply Hfail, Hiff. right; right. cbn; lia.
Defined.

(** ** What the cache update leaves alone *)

Section Frame.
Context {F : Type} {scalarF : Scalar F}.

Lemma frame_refl (L : nat -> Prop) (ip : InferenceParams F) : frame L ip ip.
Proof.
  repeat split. intros l. destruct (key_value_memory_dict ip !! l); [|done]. auto.
Qed.

Lemma frame_trans (L : nat -> Prop) (ip1 ip2 ip3 : InferenceParams F) :
  frame L ip1 ip2 -> frame L ip2 ip3 -> frame L ip1 ip3.
Proof.
  intros (Hb & Hs & Hl & Hd) (Hb' & Hs' & Hl' & Hd').
  split; [congruence|]. split; [congruence|]. split; [congruence|].
  intros l. specialize (Hd l). specialize (Hd' l).
  destruct (key_value_memory_dict ip1 !! l), (key_value_memory_dict ip2 !! l),
    (key_value_memory_dict ip3 !! l); try done.
  destruct Hd as ([?|?] & ? & ?), Hd' as ([?|?] & ? & ?);
    (split; [|split; congruence]); auto. right. congruence.
Qed.

Lemma frame_set_cache (L : nat -> Prop) l (c c' : ndarray F) (ip : InferenceParams F) :
  key_value_memory_dict ip !! l = Some c -> shape c' = shape c -> dtype c' = dtype c -> L l ->
  frame L ip (set_cache l c' ip).
Proof.
  intros Hl Hs Hd HL. repeat (split; [done|]). intros l'. cbn.
  destruct (decide (l' = l)) as [->|Hne].
  - rewrite Hl, lookup_insert_eq. auto.
  - rewrite lookup_insert_ne by done. destruct (key_value_memory_dict ip !! l'); auto.
Qed.

Lemma setitem_shape (a val a' : ndarray F) its :
  setitem a its val = Ok a' -> shape a' = shape a /\ dtype a' = dtype a.
Proof.
  unfold setitem. destruct (expand_items _ _); cbn; [|done].
  destruct (assign_shape _ _); cbn; [|done]. case_decide; [|done]. by intros [= <-].
Qed.

Lemma update_kv_cache_frame_eq (k v : ndarray F) l (ip : InferenceParams F) :
  frame (eq l) ip (_update_kv_cache k v l ip).2.
Proof.
  unfold _update_kv_cache, mbind, M_bind, get_params, assert_, lift, store_cache.
  destruct (key_value_memory_dict ip !! l) as [c|] eqn:Hl.
  2: { rewrite bool_decide_false by (by intros [? ?]). apply frame_refl. }
  rewrite bool_decide_true by done. cbn [of_option].
  destruct (shape_at k 0); [|apply frame_refl].
  destruct (shape_at k 1); [|apply frame_refl].
  destruct (shape_at c 0); [|apply frame_refl].
  case_bool_decide; [|apply frame_refl].
  destruct (shape_at c 1); [|apply frame_refl].
  case_bool_decide; [|apply frame_refl].
  destruct (setitem c _ k) as [c1|] eqn:E1; [|apply frame_refl].
  apply setitem_shape in E1 as [Hs1 Hd1].
  assert (F1 : frame (eq l) ip (set_cache l c1 ip)) by (by eapply frame_set_cache).
  destruct (setitem c1 _ v) as [c2|] eqn:E2; [|exact F1].
  apply setitem_shape in E2 as [Hs2 Hd2].
  assert (F2 : frame (eq l) ip (set_cache l c2 (set_cache l c1 ip))).
  { eapply frame_trans; [exact F1|]. eapply frame_set_cache; [|done|done|done].
    cbn. apply lookup_insert_eq. }
  destruct (getitem c2 _); exact F2.
Qed.

End Frame.

Section FrameStatements.
Context {F : Type} {scalarF : Scalar F}.

Lemma frame_elim (L : nat -> Prop) (ip ip' : InferenceParams F) :
  frame L ip ip' ->
  batch_size_offset ip' = batch_size_offset ip /\
  seqlen_offset ip' = seqlen_offset ip /\
  lengths_per_sample ip' = lengths_per_sample ip /\
  (forall l, ~ L l -> key_value_memory_dict ip' !! l = key_value_memory_dict ip !! l) /\
  (forall l, key_value_memory_dict ip !! l = None -> key_value_memory_dict ip' !! l = None) /\
  (forall l c, key_value_memory_dict ip !! l = Some c ->
     exists c', key_value_memory_dict ip' !! l = Some c' /\
                shape c' = shape c /\ dtype c' = dtype c).
Proof.
  intros (Hb & Hs & Hl & Hd). repeat (split; [done|]). split; [|split].
  - intros l HL. specialize (Hd l).
    destruct (key_value_memory_dict ip !! l), (key_value_memory_dict ip' !! l); try done.
    destruct Hd as ([?|E] & _); [done|by rewrite E].
  - intros l Hn. specialize (Hd l). rewrite Hn in Hd.
    by destruct (key_value_memory_dict ip' !! l).
  - intros l c Hc. specialize (Hd l). rewrite Hc in Hd.
    destruct (key_value_memory_dict ip' !! l) as [c'|]; [|done].
    exists c'. tauto.
Qed.

(** X1: whatever its arguments and whether it returns or raises, a cache
    update leaves the batch and sequence offsets, the per-sample lengths and
    the buffer of every other layer as they were; no layer gains or loses a
    buffer, and every buffer keeps its shape and dtype. *)
Theorem update_kv_cache_keeps_rest_of_state (k v : ndarray F) (l : nat) (ip : InferenceParams F) :
  let ip' := (_update_kv_cache k v l ip).2 in
  batch_size_offset ip' = batch_size_offset ip /\
  seqlen_offset ip' = seqlen_offset ip /\
  lengths_per_sample ip' = lengths_per_sample ip /\
  (forall l', l' <> l -> key_value_memory_dict ip' !! l' = key_value_memory_dict ip !! l') /\
  (forall l', key_value_memory_dict ip !! l' = None -> key_value_memory_dict ip' !! l' = None) /\
  (forall l' c, key_value_memory_dict ip !! l' = Some c ->
     exists c', key_value_memory_dict ip' !! l' = Some c' /\
                shape c' = shape c /\ dtype c' = dtype c).
Proof.
  intros ip'.
  destruct (frame_elim (eq l) ip ip' (update_kv_cache_frame_eq k v l ip))
    as (? & ? & ? & Hout & ? & ?).
  repeat (split; [done|]). split; [|done]. intros l' Hne. apply Hout. congruence.
Qed.

End FrameStatements.

(** ** The cache update: rejected arguments, repetition, composition *)

Section KeyMismatch.
Context {F : Type} `{Scalar F}.

(** X3: when the batch and sequence extents of the key are within capacity
    but the key cannot be broadcast to the addressed window (a wrong number of
    heads or a wrong head dimension, say), the update raises the value error
    of the first slice assignment and leaves the state unchanged: nothing has
    been written. *)
Theorem update_kv_cache_rejects_key_before_any_write
    (k v : ndarray F) (l : nat) (ip : InferenceParams F) (cache : ndarray F)
    (Bc Sc Hh D Bk Sk : nat) :
  key_value_memory_dict ip !! l = Some cache ->
  shape cache = [Bc; Sc; 2; Hh; D] ->
  shape k !! 0 = Some Bk -> shape k !! 1 = Some Sk ->
  batch_size_offset ip + Bk <= Bc -> seqlen_offset ip + Sk <= Sc ->
  broadcast_shapes (shape k) [Bk; Sk; Hh; D] <> Some [Bk; Sk; Hh; D] ->
  _update_kv_cache k v l ip = (Raise ValueError, ip).
Proof.
  intros Hl Hc Hk0 Hk1 Hb Hs Hk. unfold _update_kv_cache.
  unfold mbind, M_bind, get_params, assert_, lift, store_cache, shape_at.
  rewrite Hl. cbn [of_option]. rewrite Hk0, Hk1. cbn [of_option].
  rewrite bool_decide_true by done. rewrite Hc. cbn [of_option lookup list_lookup].
  rewrite !bool_decide_true by (done || lia).
  unfold setitem. rewrite Hc.
  replace (expand_items (length [Bc; Sc; 2; Hh; D]) _)
    with (Ok [Slice (Some (batch_size_offset ip)) (Some (batch_size_offset ip + Bk));
              Slice (Some (seqlen_offset ip)) (Some (seqlen_offset ip + Sk)); Index 0;
              Slice None None; Slice None None]) by reflexivity.
  cbn [mbind result_bind assign_shape].
  rewrite !clamp_slice_full, !clamp_slice_in by lia.
  cbn [mbind result_bind fst snd].
  replace (batch_size_offset ip + Bk - batch_size_offset ip) with Bk by lia.
  replace (seqlen_offset ip + Sk - seqlen_offset ip) with Sk by lia.
  by rewrite decide_False.
Qed.

End KeyMismatch.

Section CacheMore.
Context {F : Type} `{Scalar F}.

Lemma setitem_mismatch (a val : ndarray F) Bc Sc Hh D Bk Sk bs ss c :
  shape a = [Bc; Sc; 2; Hh; D] ->
  bs + Bk <= Bc -> ss + Sk <= Sc -> c < 2 ->
  broadcast_shapes (shape val) [Bk; Sk; Hh; D] <> Some [Bk; Sk; Hh; D] ->
  setitem a [Slice (Some bs) (Some (bs + Bk)); Slice (Some ss) (Some (ss + Sk)); Index c; Ellipsis] val
  = Raise ValueError.
Proof.
  intros Ha Hb Hs Hc Hv. unfold setitem. rewrite Ha.
  replace (expand_items (length [Bc; Sc; 2; Hh; D]) _)
    with (Ok [Slice (Some bs) (Some (bs + Bk)); Slice (Some ss) (Some (ss + Sk)); Index c;
              Slice None None; Slice None None]) by reflexivity.
  cbn [mbind result_bind assign_shape].
  rewrite !clamp_slice_full, !clamp_slice_in by lia.
  cbn [mbind result_bind fst snd].
  replace (bs + Bk - bs) with Bk by lia. replace (ss + Sk - ss) with Sk by lia.
  by rewrite decide_False.
Qed.

(** X4: when the key fits the addressed window but the value cannot be
    broadcast to it, the update raises the value error of the second slice
    assignment after the first has been carried out: the state it leaves holds
    the key at axis-2 index 0 of the window, and every other entry as
    before. *)
Theorem update_kv_cache_rejects_value_after_key_write
    (k v : ndarray F) (l : nat) (ip : InferenceParams F) (cache : ndarray F)
    (Bc Sc Hh D Bk Sk : nat) :
  let bo := batch_size_offset ip in
  let so := seqlen_offset ip in
  key_value_memory_dict ip !! l = Some cache ->
  shape cache = [Bc; Sc; 2; Hh; D] ->
  shape k = [Bk; Sk; Hh; D] ->
  bo + Bk <= Bc -> so + Sk <= Sc ->
  broadcast_shapes (shape v) [Bk; Sk; Hh; D] <> Some [Bk; Sk; Hh; D] ->
  exists c1,
    _update_kv_cache k v l ip = (Raise ValueError, set_cache l c1 ip) /\
    shape c1 = shape cache /\
    forall b s c h d, b < Bc -> s < Sc -> c < 2 -> h < Hh -> d < D ->
      get c1 [b; s; c; h; d]
      = if decide ((bo <= b < bo + Bk) /\ (so <= s < so + Sk) /\ c = 0)
        then cast (dtype cache) (get k [b - bo; s - so; h; d])
        else get cache [b; s; c; h; d].
Proof.
  intros bo so Hl Hc Hk Hb Hs Hv.
  exists (tabulate (dtype cache) [Bc; Sc; 2; Hh; D] (write_window cache k bo so 0)).
  split; [|split; [done|]].
  - unfold _update_kv_cache.
    unfold mbind, M_bind, get_params, assert_, lift, store_cache, shape_at.
    rewrite Hl. cbn [of_option]. rewrite Hk. cbn [of_option lookup list_lookup].
    rewrite bool_decide_true by done. rewrite Hc. cbn [of_option lookup list_lookup].
    rewrite !bool_decide_true by (done || lia).
    rewrite (setitem_window cache k Bc Sc Hh D Bk Sk) by (done || lia).
    rewrite (setitem_mismatch _ v Bc Sc Hh D Bk Sk) by (done || lia). done.
  - intros b s c h d Hb' Hs' Hc' Hh' Hd'. rewrite get_tabulate by solve_bounds.
    unfold write_window. rewrite Hk. done.
Qed.

Lemma written_twice (cache k v : ndarray F) Bc Sc Hh D Bk Sk bo so :
  shape k = [Bk; Sk; Hh; D] -> shape v = [Bk; Sk; Hh; D] ->
  let c1 := tabulate (dtype cache) [Bc; Sc; 2; Hh; D] (write_window cache k bo so 0) in
  let c2 := tabulate (dtype cache) [Bc; Sc; 2; Hh; D] (write_window c1 v bo so 1) in
  let c3 := tabulate (dtype c2) [Bc; Sc; 2; Hh; D] (write_window c2 k bo so 0) in
  let c4 := tabulate (dtype c2) [Bc; Sc; 2; Hh; D] (write_window c3 v bo so 1) in
  c4 = c2.
Proof.
  intros Hk Hv c1 c2 c3 c4.
  apply ndarray_ext; [apply wf_tabulate|apply wf_tabulate|done|done|].
  intros idx Hi. cbn [shape c4 tabulate] in Hi.
  apply in_bounds5_inv in Hi as (b & s & c & h & d & -> & Hb' & Hs' & Hc' & Hh' & Hd').
  unfold c4, c3.
  rewrite (get_written c2 k v Bc Sc Hh D Bk Sk bo so) by done.
  destruct (decide (bo <= b < bo + Bk /\ so <= s < so + Sk)) as [Hw|Hw]; [|done].
  unfold c2, c1. rewrite (get_written cache k v Bc Sc Hh D Bk Sk bo so) by done.
  rewrite (decide_True (P := bo <= b < bo + Bk /\ so <= s < so + Sk)) by done. reflexivity.
Qed.

(** X5: repeating a cache update with the same keys and values at unchanged
    offsets leaves the state of the first update as it is and returns the same
    prefix. *)
Theorem update_kv_cache_repeat_is_idempotent
    (k v : ndarray F) (l : nat) (ip : InferenceParams F) (cache : ndarray F)
    (Bc Sc Hh D Bk Sk : nat) :
  key_value_memory_dict ip !! l = Some cache ->
  shape cache = [Bc; Sc; 2; Hh; D] ->
  shape k = [Bk; Sk; Hh; D] -> shape v = [Bk; Sk; Hh; D] ->
  batch_size_offset ip + Bk <= Bc -> seqlen_offset ip + Sk <= Sc ->
  exists prefix ip',
    _update_kv_cache k v l ip = (Ok prefix, ip') /\
    _update_kv_cache k v l ip' = (Ok prefix, ip').
Proof.
  intros Hl Hc Hk Hv Hb Hs.
  rewrite (update_kv_cache_ok k v l ip cache Bc Sc Hh D Bk Sk) by done.
  eexists _, _. split; [done|].
  erewrite (update_kv_cache_ok k v l _ _ Bc Sc Hh D Bk Sk);
    [|apply lookup_insert_eq|done|done|done|done|done].
  cbn [batch_size_offset seqlen_offset set_cache].
  rewrite (written_twice cache k v Bc Sc Hh D Bk Sk) by done.
  f_equal. unfold set_cache. cbn. f_equal. apply insert_insert_eq.
Qed.

(** X6: cache updates of two different layers do not interfere: in either
    order they return the same prefixes and leave the same state. *)
Theorem update_kv_cache_layers_commute
    (ka va kb vb : ndarray F) (la lb : nat) (ip : InferenceParams F) (ca cb : ndarray F)
    (Bc Sc Hh D Bk Sk Bc' Sc' Hh' D' Bk' Sk' : nat) :
  la <> lb ->
  key_value_memory_dict ip !! la = Some ca -> shape ca = [Bc; Sc; 2; Hh; D] ->
  key_value_memory_dict ip !! lb = Some cb -> shape cb = [Bc'; Sc'; 2; Hh'; D'] ->
  shape ka = [Bk; Sk; Hh; D] -> shape va = [Bk; Sk; Hh; D] ->
  shape kb = [Bk'; Sk'; Hh'; D'] -> shape vb = [Bk'; Sk'; Hh'; D'] ->
  batch_size_offset ip + Bk <= Bc -> seqlen_offset ip + Sk <= Sc ->
  batch_size_offset ip + Bk' <= Bc' -> seqlen_offset ip + Sk' <= Sc' ->
  exists pa pb ipa ipb ip',
    _update_kv_cache ka va la ip = (Ok pa, ipa) /\
    _update_kv_cache kb vb lb ipa = (Ok pb, ip') /\
    _update_kv_cache kb vb lb ip = (Ok pb, ipb) /\
    _update_kv_cache ka va la ipb = (Ok pa, ip').
Proof.
  intros Hne Hla Hca Hlb Hcb Hka Hva Hkb Hvb Hb Hs Hb' Hs'.
  rewrite (update_kv_cache_ok ka va la ip ca Bc Sc Hh D Bk Sk) by done.
  rewrite (update_kv_cache_ok kb vb lb ip cb Bc' Sc' Hh' D' Bk' Sk') by done.
  eexists _, _, _, _, _. split; [done|].
  split.
  { erewrite (update_kv_cache_ok kb vb lb _ cb Bc' Sc' Hh' D' Bk' Sk');
      [done|by cbn; rewrite lookup_insert_ne|done..]. }
  split; [done|].
  erewrite (update_kv_cache_ok ka va la _ ca Bc Sc Hh D Bk Sk);
      [|by cbn; rewrite lookup_insert_ne|done..].
  cbn [batch_size_offset seqlen_offset set_cache]. f_equal.
  unfold set_cache. cbn. f_equal. by apply insert_insert_ne.
Qed.

End CacheMore.

Section CacheChunks.
Context {F : Type} `{Scalar F}.

Lemma getitem_seq_split (a a1 a2 : ndarray F) B S1 S2 Hh D :
  shape a = [B; S1 + S2; Hh; D] ->
  getitem a [Slice None None; Slice None (Some S1)] = Ok a1 ->
  getitem a [Slice None None; Slice (Some S1) None] = Ok a2 ->
  shape a1 = [B; S1; Hh; D] /\ shape a2 = [B; S2; Hh; D] /\
  (forall b s h d, b < B -> s < S1 -> h < Hh -> d < D ->
     get a1 [b; s; h; d] = get a [b; s; h; d]) /\
  (forall b s h d, b < B -> s < S2 -> h < Hh -> d < D ->
     get a2 [b; s; h; d] = get a [b; S1 + s; h; d]).
Proof.
  intros Ha. unfold getitem. rewrite Ha.
  replace (expand_items (length [B; S1 + S2; Hh; D]) [Slice None None; Slice None (Some S1)])
    with (Ok [Slice None None; Slice None (Some S1); Slice None None; Slice None None])
    by reflexivity.
  replace (expand_items (length [B; S1 + S2; Hh; D]) [Slice None None; Slice (Some S1) None])
    with (Ok [Slice None None; Slice (Some S1) None; Slice None None; Slice None None])
    by reflexivity.
  cbn [mbind result_bind view_shape view_index].
  rewrite !clamp_slice_full, !clamp_slice_prefix by lia.
  assert (E : clamp_slice (S1 + S2) (Some S1) None = (S1, S2)).
  { unfold clamp_slice. cbn [from_option]. unfold id.
    rewrite Nat.min_id, (Nat.min_l S1) by lia. f_equal. lia. }
  rewrite E. cbn [fst snd].
  intros [= <-] [= <-]. split; [done|]. split; [done|]. split.
  - intros b s h d ????. rewrite get_tabulate by solve_bounds. done.
  - intros b s h d ????. rewrite get_tabulate by solve_bounds. done.
Qed.

Lemma written_in_chunks (cache k v k1 v1 k2 v2 : ndarray F) Bc Sc Hh D Bk S1 S2 bo so :
  shape k = [Bk; S1 + S2; Hh; D] -> shape v = [Bk; S1 + S2; Hh; D] ->
  shape k1 = [Bk; S1; Hh; D] -> shape v1 = [Bk; S1; Hh; D] ->
  shape k2 = [Bk; S2; Hh; D] -> shape v2 = [Bk; S2; Hh; D] ->
  (forall b s h d, b < Bk -> s < S1 -> h < Hh -> d < D ->
     get k1 [b; s; h; d] = get k [b; s; h; d] /\ get v1 [b; s; h; d] = get v [b; s; h; d]) ->
  (forall b s h d, b < Bk -> s < S2 -> h < Hh -> d < D ->
     get k2 [b; s; h; d] = get k [b; S1 + s; h; d] /\
     get v2 [b; s; h; d] = get v [b; S1 + s; h; d]) ->
  let c1 := tabulate (dtype cache) [Bc; Sc; 2; Hh; D] (write_window cache k bo so 0) in
  let c2 := tabulate (dtype cache) [Bc; Sc; 2; Hh; D] (write_window c1 v bo so 1) in
  let a1 := tabulate (dtype cache) [Bc; Sc; 2; Hh; D] (write_window cache k1 bo so 0) in
  let a2 := tabulate (dtype cache) [Bc; Sc; 2; Hh; D] (write_window a1 v1 bo so 1) in
  let b1 := tabulate (dtype a2) [Bc; Sc; 2; Hh; D] (write_window a2 k2 bo (so + S1) 0) in
  let b2 := tabulate (dtype a2) [Bc; Sc; 2; Hh; D] (write_window b1 v2 bo (so + S1) 1) in
  b2 = c2.
Proof.
  intros Hk Hv Hk1 Hv1 Hk2 Hv2 E1 E2 c1 c2 a1 a2 b1 b2.
  apply ndarray_ext; [apply wf_tabulate|apply wf_tabulate|done|done|].
  intros idx Hi. cbn [shape b2 tabulate] in Hi.
  apply in_bounds5_inv in Hi as (b & s & c & h & d & -> & Hb' & Hs' & Hc' & Hh' & Hd').
  unfold b2, b1.
  rewrite (get_written a2 k2 v2 Bc Sc Hh D Bk S2 bo (so + S1)) by done.
  unfold c2, c1.
  rewrite (get_written cache k v Bc Sc Hh D Bk (S1 + S2) bo so) by done.
  unfold a2, a1. cbn [dtype tabulate].
  destruct (decide (bo <= b < bo + Bk /\ so + S1 <= s < so + S1 + S2)) as [Hw|Hw].
  - rewrite (decide_True (P := bo <= b < bo + Bk /\ so <= s < so + (S1 + S2))) by lia.
    f_equal. destruct (E2 (b - bo) (s - (so + S1)) h d) as [Ek Ev]; try lia.
    replace (S1 + (s - (so + S1))) with (s - so) in Ek, Ev by lia.
    by destruct (decide (c = 0)).
  - rewrite (get_written cache k1 v1 Bc Sc Hh D Bk S1 bo so) by done.
    destruct (decide (bo <= b < bo + Bk /\ so <= s < so + S1)) as [Hw1|Hw1].
    + rewrite (decide_True (P := bo <= b < bo + Bk /\ so <= s < so + (S1 + S2))) by lia.
      f_equal. destruct (E1 (b - bo) (s - so) h d) as [Ek Ev]; try lia.
      by destruct (decide (c = 0)).
    + by rewrite (decide_False (P := bo <= b < bo + Bk /\ so <= s < so + (S1 + S2))) by lia.
Qed.

(** X7: writing a chunk of S1 + S2 positions in two calls, k[:, :S1] and
    v[:, :S1] first and, with the sequence offset advanced by S1, k[:, S1:]
    and v[:, S1:] next, leaves the same buffers as writing the chunk in one
    call, and the second call returns the prefix that the single call
    returns. *)
Theorem update_kv_cache_in_two_pieces
    (k v k1 v1 k2 v2 : ndarray F) (l : nat) (ip : InferenceParams F) (cache : ndarray F)
    (Bc Sc Hh D Bk S1 S2 : nat) :
  let so := seqlen_offset ip in
  key_value_memory_dict ip !! l = Some cache ->
  shape cache = [Bc; Sc; 2; Hh; D] ->
  shape k = [Bk; S1 + S2; Hh; D] -> shape v = [Bk; S1 + S2; Hh; D] ->
  getitem k [Slice None None; Slice None (Some S1)] = Ok k1 ->
  getitem k [Slice None None; Slice (Some S1) None] = Ok k2 ->
  getitem v [Slice None None; Slice None (Some S1)] = Ok v1 ->
  getitem v [Slice None None; Slice (Some S1) None] = Ok v2 ->
  batch_size_offset ip + Bk <= Bc -> so + (S1 + S2) <= Sc ->
  exists whole first ip' ip1,
    _update_kv_cache k v l ip = (Ok whole, ip') /\
    _update_kv_cache k1 v1 l ip = (Ok first, ip1) /\
    _update_kv_cache k2 v2 l (with_seqlen_offset (so + S1) ip1)
    = (Ok whole, with_seqlen_offset (so + S1) ip').
Proof.
  intros so Hl Hc Hk Hv G1 G2 G3 G4 Hb Hs.
  destruct (getitem_seq_split k k1 k2 Bk S1 S2 Hh D Hk G1 G2) as (Hk1 & Hk2 & Ek1 & Ek2).
  destruct (getitem_seq_split v v1 v2 Bk S1 S2 Hh D Hv G3 G4) as (Hv1 & Hv2 & Ev1 & Ev2).
  rewrite (update_kv_cache_ok k v l ip cache Bc Sc Hh D Bk (S1 + S2)) by done.
  rewrite (update_kv_cache_ok k1 v1 l ip cache Bc Sc Hh D Bk S1) by (done || lia).
  eexists _, _, _, _. split; [done|]. split; [done|].
  erewrite (update_kv_cache_ok k2 v2 l _ _ Bc Sc Hh D Bk S2);
    [|apply lookup_insert_eq|done|done|done|cbn; lia|cbn; fold so; lia].
  cbn [batch_size_offset seqlen_offset set_cache with_seqlen_offset].
  fold so.
  rewrite (written_in_chunks cache k v k1 v1 k2 v2 Bc Sc Hh D Bk S1 S2) by (done || eauto).
  cbn [dtype tabulate]. replace (so + S1 + S2) with (so + (S1 + S2)) by lia.
  f_equal. unfold with_seqlen_offset, set_cache. cbn. f_equal. apply insert_insert_eq.
Qed.

End CacheChunks.

(** ** The rotary applier: rejected inputs *)

Lemma count_holes_app d1 d2 : count_holes (d1 ++ d2) = count_holes d1 + count_holes d2.
Proof. induction d1 as [|[n|] d1 IH]; cbn; lia. Qed.

Lemma known_numel_app d1 d2 : known_numel (d1 ++ d2) = known_numel d1 * known_numel d2.
Proof. induction d1 as [|[n|] d1 IH]; cbn [known_numel app]; [cbn; lia| |done]. rewrite IH. lia. Qed.

Lemma count_holes_known sh : count_holes (Some <$> sh) = 0.
Proof. induction sh; cbn; done. Qed.

Lemma known_numel_known sh : known_numel (Some <$> sh) = numel sh.
Proof. induction sh as [|n sh IH]; cbn; [done|]. by rewrite IH. Qed.

Lemma numel_app sh1 sh2 : numel (sh1 ++ sh2) = numel sh1 * numel sh2.
Proof.
  induction sh1 as [|n sh1 IH]; [change (numel sh2 = 1 * numel sh2); lia|].
  change (n * numel (sh1 ++ sh2) = n * numel sh1 * numel sh2). rewrite IH. lia.
Qed.

Section RotaryEdges.
Context {F : Type} `{Scalar F}.

Lemma rotary_pairs_dims (x : ndarray F) sh D :
  shape x = sh ++ [D] ->
  let dims := (Some <$> removelast (shape x)) ++ [None; Some 2] in
  count_holes dims = 1 /\ known_numel dims = numel sh * 2 /\
  numel (shape (astype float32 x)) = numel sh * D.
Proof.
  intros Hs dims. unfold dims. rewrite Hs, removelast_last.
  rewrite count_holes_app, known_numel_app, count_holes_known, known_numel_known.
  cbn [astype shape]. rewrite Hs, numel_app. cbn. lia.
Qed.

(** X8: for every table, the rotary applier raises the value error of its
    first reshape when the last axis of the input has odd length, and when the
    leading axes hold no element (the -1 of the reshape cannot be inferred). *)
Theorem apply_rotary_emb_rejects_odd_or_empty (x fc : ndarray F) (sh : list nat) (D : nat) :
  shape x = sh ++ [D] -> numel sh = 0 \/ D mod 2 = 1 ->
  apply_rotary_emb x fc = Raise ValueError.
Proof.
  intros Hs Hbad. unfold apply_rotary_emb, reshape.
  destruct (rotary_pairs_dims x sh D Hs) as (-> & -> & ->).
  rewrite decide_False; [done|]. intros [Hk Hm]. destruct Hbad as [Hz|Hodd]; [lia|].
  rewrite Nat.Div0.mul_mod_distr_l, Hodd in Hm. lia.
Qed.

(** X9: on an input with one or two axes, an even last axis and non-empty
    leading axes the rotary applier raises the index error of
    [xshaped.shape[3]]: it accepts no input with fewer than three axes. *)
Theorem apply_rotary_emb_rejects_fewer_than_three_axes (x fc : ndarray F) (sh : list nat) (D2 : nat) :
  shape x = sh ++ [2 * D2] -> numel sh <> 0 -> length sh < 2 ->
  apply_rotary_emb x fc = Raise IndexError.
Proof.
  intros Hs Hne Hlen. unfold apply_rotary_emb.
  destruct (rotary_pairs_dims x sh (2 * D2) Hs) as (Hc & Hk & Hn).
  rewrite (reshape_infer _ _ (numel sh * 2) D2) by (done || lia).
  cbn [mbind result_bind]. unfold shape_at. cbn [shape].
  rewrite Hs, removelast_last.
  destruct sh as [|n [|m sh]]; [done|done|cbn in Hlen; lia].
Qed.

End RotaryEdges.

(** ** The rotary applier: algebra of the rotations *)

Section RotaryAlgebra.
Context {F : Type} `{Scalar F}.
Hypothesis F_ring : ring_theory fzero fone fadd fmul fsub fopp (@eq F).
Hypothesis cast_exact : forall dt (x : F), cast dt x = x.

Add Ring F_ring_algebra : F_ring.

Lemma bdim_same_or_one B B' : B' = B \/ B' = 1 -> bdim B B' = Some B.
Proof. intros HB'. unfold bdim. repeat case_decide; try done; lia. Qed.

(** X10: in exact arithmetic, rotating with a table of pairs on the unit
    circle keeps the squared length a^2 + b^2 of every pair of the input. *)
Theorem apply_rotary_emb_preserves_pair_norm (x fc : ndarray F) B B' S Hh D2 :
  shape x = [B; S; Hh; 2 * D2] -> wf x ->
  numel (shape fc) = B' * (S * (D2 * 2)) ->
  0 < B -> 0 < S -> 0 < Hh -> 0 < D2 ->
  B' = B \/ B' = 1 ->
  (forall b s i, b < B' -> s < S -> i < D2 ->
     let c := get (as_shape [B'; S; D2; 2] fc) [b; s; i; 0] in
     let sn := get (as_shape [B'; S; D2; 2] fc) [b; s; i; 1] in
     fadd (fmul c c) (fmul sn sn) = fone) ->
  exists y, apply_rotary_emb x fc = Ok y /\
    forall b s h i, b < B -> s < S -> h < Hh -> i < D2 ->
      fadd (fmul (get y [b; s; h; 2 * i]) (get y [b; s; h; 2 * i]))
           (fmul (get y [b; s; h; 2 * i + 1]) (get y [b; s; h; 2 * i + 1]))
      = fadd (fmul (get x [b; s; h; 2 * i]) (get x [b; s; h; 2 * i]))
             (fmul (get x [b; s; h; 2 * i + 1]) (get x [b; s; h; 2 * i + 1])).
Proof.
  intros Hs Hwf Hfc HB HS HH HD HB' Htab.
  pose proof (bdim_same_or_one B B' HB') as Hbd.
  destruct (apply_rotary_emb_spec x fc B B' B S Hh D2)
    as (y & Hy & Hdt & Hsh & Hwfy & Hget); try done.
  exists y. split; [done|]. intros b s h i Hb Hs' Hh' Hi.
  destruct (Hget b s h i) as [Y0 Y1]; try done.
  assert (Hb' : bfix B' b < B') by (by eapply bfix_bdim_r).
  specialize (Htab (bfix B' b) s i Hb' Hs' Hi). cbn zeta in Htab.
  rewrite (bfix_lt B b) in Y0, Y1 by done. rewrite !cast_exact in Y0, Y1.
  rewrite Y0, Y1.
  set (a := get x [b; s; h; 2 * i]). set (b_ := get x [b; s; h; 2 * i + 1]).
  set (c := get _ [_; _; _; 0]) in *. set (sn := get _ [_; _; _; 1]) in *.
  transitivity (fmul (fadd (fmul a a) (fmul b_ b_)) (fadd (fmul c c) (fmul sn sn))); [ring|].
  rewrite Htab. ring.
Qed.

(** X11: in exact arithmetic two successive rotations are one rotation:
    applying the table fc1 and then the table fc2 returns what applying the
    table of their complex products (c1 c2 - s1 s2, s1 c2 + c1 s2) returns. *)
Theorem apply_rotary_emb_composes (x fc1 fc2 fc12 : ndarray F) B B' S Hh D2 :
  shape x = [B; S; Hh; 2 * D2] -> wf x ->
  numel (shape fc1) = B' * (S * (D2 * 2)) ->
  numel (shape fc2) = B' * (S * (D2 * 2)) ->
  numel (shape fc12) = B' * (S * (D2 * 2)) ->
  0 < B -> 0 < S -> 0 < Hh -> 0 < D2 ->
  B' = B \/ B' = 1 ->
  (forall b s i, b < B' -> s < S -> i < D2 ->
     let c1 := get (as_shape [B'; S; D2; 2] fc1) [b; s; i; 0] in
     let s1 := get (as_shape [B'; S; D2; 2] fc1) [b; s; i; 1] in
     let c2 := get (as_shape [B'; S; D2; 2] fc2) [b; s; i; 0] in
     let s2 := get (as_shape [B'; S; D2; 2] fc2) [b; s; i; 1] in
     get (as_shape [B'; S; D2; 2] fc12) [b; s; i; 0] = fsub (fmul c1 c2) (fmul s1 s2) /\
     get (as_shape [B'; S; D2; 2] fc12) [b; s; i; 1] = fadd (fmul s1 c2) (fmul c1 s2)) ->
  exists y z,
    apply_rotary_emb x fc1 = Ok y /\ apply_rotary_emb y fc2 = Ok z /\
    apply_rotary_emb x fc12 = Ok z.
Proof.
  intros Hs Hwf Hfc1 Hfc2 Hfc12 HB HS HH HD HB' Htab.
  pose proof (bdim_same_or_one B B' HB') as Hbd.
  destruct (apply_rotary_emb_spec x fc1 B B' B S Hh D2)
    as (y & Hy & Hdt & Hsh & Hwfy & Hget); try done.
  destruct (apply_rotary_emb_spec y fc2 B B' B S Hh D2)
    as (z & Hz & Hdtz & Hshz & Hwfz & Hgetz); try done.
  destruct (apply_rotary_emb_spec x fc12 B B' B S Hh D2)
    as (w & Hw & Hdtw & Hshw & Hwfw & Hgetw); try done.
  exists y, z. split; [done|]. split; [done|]. rewrite Hw. f_equal.
  apply ndarray_ext; [done|done|congruence|congruence|].
  rewrite Hshw. intros idx Hb.
  apply in_bounds4_inv in Hb as (b & s & h & e & -> & Hb & Hs' & Hh' & He).
  apply pair_split in He as (i & j & -> & Hi & Hj).
  destruct (Hgetz b s h i) as [Z0 Z1]; try done.
  destruct (Hgetw b s h i) as [W0 W1]; try done.
  destruct (Hget b s h i) as [Y0 Y1]; try done.
  assert (Hb' : bfix B' b < B') by (by eapply bfix_bdim_r).
  destruct (Htab (bfix B' b) s i) as (Hc & Hsn); try done.
  rewrite (bfix_lt B b) in * by done. rewrite !cast_exact in *.
  rewrite Y0, Y1 in Z0, Z1. rewrite Hc, Hsn in W0, W1.
  destruct j as [|[|j]]; [| |lia].
  - rewrite Nat.add_0_r, Z0, W0. ring.
  - rewrite Z1, W1. ring.
Qed.

(** X12: in exact arithmetic a table whose pairs are all (1, 0) leaves the
    input as it is. *)
Theorem apply_rotary_emb_identity_table (x fc : ndarray F) B B' S Hh D2 :
  shape x = [B; S; Hh; 2 * D2] -> wf x ->
  numel (shape fc) = B' * (S * (D2 * 2)) ->
  0 < B -> 0 < S -> 0 < Hh -> 0 < D2 ->
  B' = B \/ B' = 1 ->
  (forall b s i, b < B' -> s < S -> i < D2 ->
     get (as_shape [B'; S; D2; 2] fc) [b; s; i; 0] = fone /\
     get (as_shape [B'; S; D2; 2] fc) [b; s; i; 1] = fzero) ->
  apply_rotary_emb x fc = Ok x.
Proof.
  intros Hs Hwf Hfc HB HS HH HD HB' Htab.
  pose proof (bdim_same_or_one B B' HB') as Hbd.
  destruct (apply_rotary_emb_spec x fc B B' B S Hh D2)
    as (y & Hy & Hdt & Hsh & Hwfy & Hget); try done.
  rewrite Hy. f_equal.
  apply ndarray_ext; [done|done|congruence|congruence|].
  rewrite Hsh. intros idx Hb.
  apply in_bounds4_inv in Hb as (b & s & h & e & -> & Hb & Hs' & Hh' & He).
  apply pair_split in He as (i & j & -> & Hi & Hj).
  destruct (Hget b s h i) as [Y0 Y1]; try done.
  assert (Hb' : bfix B' b < B') by (by eapply bfix_bdim_r).
  destruct (Htab (bfix B' b) s i) as (Hc & Hsn); try done.
  rewrite (bfix_lt B b) in * by done. rewrite !cast_exact in *.
  rewrite Hc, Hsn in Y0, Y1.
  destruct j as [|[|j]]; [| |lia].
  - rewrite Nat.add_0_r, Y0. ring.
  - rewrite Y1. ring.
Qed.

End RotaryAlgebra.

(** ** The feed-forward layer *)

Section FeedForwardSpec.
Context {F : Type} {scalarF : Scalar F} {lib : NNLib F}.




End FeedForwardSpec.

(** ** Further instances on the integer model *)

Lemma update_kv_cache_rejects_value_after_key_write_witness :
  exists c1,
    _update_kv_cache Example.k1 Sample.v_pair 0 Example.ip
    = (Raise ValueError, set_cache 0 c1 Example.ip) /\
    get c1 [0; 0; 0; 0; 1] = 2%Z.
Proof.
  destruct (update_kv_cache_rejects_value_after_key_write Example.k1 Sample.v_pair 0
              Example.ip Example.cache 1 2 1 2 1 1)
    as (c1 & Hup & _ & Hg);
    [reflexivity|reflexivity|reflexivity|cbn; lia|cbn; lia|discriminate|].
  exists c1. split; [exact Hup|].
  exact (eq_trans (Hg 0 0 0 0 1 ltac:(lia) ltac:(lia) ltac:(lia) ltac:(lia) ltac:(lia)) eq_refl).
Defined.

Lemma update_kv_cache_repeat_is_idempotent_witness :
  exists prefix ip',
    _update_kv_cache Example.k1 Example.v1 0 Example.ip = (Ok prefix, ip') /\
    _update_kv_cache Example.k1 Example.v1 0 ip' = (Ok prefix, ip').
Proof.
  apply (update_kv_cache_repeat_is_idempotent Example.k1 Example.v1 0 Example.ip
           Example.cache 1 2 1 2 1 1);
    [reflexivity|reflexivity|reflexivity|reflexivity|cbn; lia|cbn; lia].
Defined.

Lemma update_kv_cache_layers_commute_witness :
  exists pa pb ipa ipb ip',
    _update_kv_cache Example.k1 Example.v1 0 Sample.ip2 = (Ok pa, ipa) /\
    _update_kv_cache Example.k2 Example.v2 1 ipa = (Ok pb, ip') /\
    _update_kv_cache Example.k2 Example.v2 1 Sample.ip2 = (Ok pb, ipb) /\
    _update_kv_cache Example.k1 Example.v1 0 ipb = (Ok pa, ip').
Proof.
  apply (update_kv_cache_layers_commute Example.k1 Example.v1 Example.k2 Example.v2 0 1
           Sample.ip2 Example.cache Example.cache 1 2 1 2 1 1 1 2 1 2 1 1);
    [lia|reflexivity|reflexivity|reflexivity|reflexivity|reflexivity|reflexivity
    |reflexivity|reflexivity|cbn; lia|cbn; lia|cbn; lia|cbn; lia].
Defined.

Lemma update_kv_cache_in_two_pieces_witness :
  exists whole first ip' ip1,
    _update_kv_cache Sample.k_pair Sample.v_pair 0 Example.ip = (Ok whole, ip') /\
    _update_kv_cache Example.k1 Example.v1 0 Example.ip = (Ok first, ip1) /\
    _update_kv_cache Example.k2 Example.v2 0 (with_seqlen_offset 1 ip1)
    = (Ok whole, with_seqlen_offset 1 ip').
Proof.
  apply (update_kv_cache_in_two_pieces Sample.k_pair Sample.v_pair Example.k1 Example.v1
           Example.k2 Example.v2 0 Example.ip Example.cache 1 2 1 2 1 1 1);
    [reflexivity|reflexivity|reflexivity|reflexivity|reflexivity|reflexivity
    |reflexivity|reflexivity|cbn; lia|cbn; lia].
Defined.

Lemma apply_rotary_emb_rejects_odd_or_empty_witness :
  apply_rotary_emb Sample.x_odd Example.fc = Raise ValueError.
Proof.
  apply (apply_rotary_emb_rejects_odd_or_empty Sample.x_odd Example.fc [1; 1; 1] 3);
    [reflexivity|right; reflexivity].
Defined.

Lemma apply_rotary_emb_rejects_fewer_than_three_axes_witness :
  apply_rotary_emb Sample.x_flat Example.fc = Raise IndexError.
Proof.
  apply (apply_rotary_emb_rejects_fewer_than_three_axes Sample.x_flat Example.fc [2] 1);
    [reflexivity|cbn; lia|cbn; lia].
Defined.

Lemma apply_rotary_emb_preserves_pair_norm_witness :
  exists y, apply_rotary_emb Example.heads Example.fc = Ok y /\
    fadd (fmul (get y [0; 0; 0; 0]) (get y [0; 0; 0; 0]))
         (fmul (get y [0; 0; 0; 1]) (get y [0; 0; 0; 1])) = 5%Z.
Proof.
  destruct (apply_rotary_emb_preserves_pair_norm Z_ring (fun _ _ => eq_refl)
              Example.heads Example.fc 1 1 2 2 1) as (y & Hy & Hn);
    [reflexivity|reflexivity|reflexivity|lia|lia|lia|lia|by left| |].
  { intros b s i Hb Hs Hi.
    assert (b = 0) as -> by lia. assert (i = 0) as -> by lia.
    destruct s as [|[|s]]; [reflexivity|reflexivity|lia]. }
  exists y. split; [exact Hy|].
  exact (eq_trans (Hn 0 0 0 0 ltac:(lia) ltac:(lia) ltac:(lia) ltac:(lia)) eq_refl).
Defined.

Lemma apply_rotary_emb_composes_witness :
  exists y z,
    apply_rotary_emb Example.heads Example.fc = Ok y /\
    apply_rotary_emb y Example.fc_neg = Ok z /\
    apply_rotary_emb Example.heads Sample.fc_id = Ok z.
Proof.
  apply (apply_rotary_emb_composes Z_ring (fun _ _ => eq_refl)
           Example.heads Example.fc Example.fc_neg Sample.fc_id 1 1 2 2 1);
    [reflexivity|reflexivity|reflexivity|reflexivity|reflexivity|lia|lia|lia|lia|by left|].
  intros b s i Hb Hs Hi.
  assert (b = 0) as -> by lia. assert (i = 0) as -> by lia.
  destruct s as [|[|s]]; [| |lia]; split; reflexivity.
Defined.

Lemma apply_rotary_emb_identity_table_witness :
  apply_rotary_emb Example.heads Sample.fc_id = Ok Example.heads.
Proof.
  apply (apply_rotary_emb_identity_table Z_ring (fun _ _ => eq_refl)
           Example.heads Sample.fc_id 1 1 2 2 1);
    [reflexivity|reflexivity|reflexivity|lia|lia|lia|lia|by left|].
  intros b s i Hb Hs Hi.
  assert (b = 0) as -> by lia. assert (i = 0) as -> by lia.
  destruct s as [|[|s]]; [| |lia]; split; reflexivity.
Defined.


Lemma update_kv_cache_rejects_key_before_any_write_witness :
  _update_kv_cache Sample.k_heads Example.v1 0 Example.ip = (Raise ValueError, Example.ip).
Proof.
  apply (update_kv_cache_rejects_key_before_any_write Sample.k_heads Example.v1 0 Example.ip
           Example.cache 1 2 1 2 1 1);
    [reflexivity|reflexivity|reflexivity|reflexivity|cbn; lia|cbn; lia|discriminate].
Defined.
